(** * Genome sequence retrieval and one-hot encoding (proteus/genome.py)

    A shallow embedding of the module-level helpers [_sequence_to_encoding],
    [_encoding_to_sequence], [_get_sequence_from_coords] and of the [Genome]
    class that wraps them, followed by the properties of the codec and of
    the coordinate resolver.

    Conventions of the embedding:
    - a Python [str] is a list of Unicode code points ([N]);
    - a Python [int] is a [Z]; an index produced by [enumerate] is a [nat];
    - a [numpy.float64] is a primitive binary64 [float];
    - a call that may raise returns a [result]: [Ok v] or [Raise e];
    - a [dict] is a [gmap]. *)

From Stdlib Require Import ZArith NArith List Ascii String Floats.
From stdpp Require Import base option list gmap sorting.

Local Open Scope Z_scope.

(** ** Python values *)

Abbreviation char := N (only parsing).
Abbreviation str := (list N) (only parsing).

(** A string literal, as the list of its code points. *)
Definition py (s : string) : str :=
  map N_of_ascii (list_ascii_of_string s).

Inductive exn : Type :=
| IndexError
| KeyError (key : str)
| ValueError (msg : str).

Inductive result (A : Type) : Type :=
| Ok (a : A)
| Raise (e : exn).
Arguments Ok {A} a.
Arguments Raise {A} e.

(** Sequencing: an exception raised by [m] propagates. *)
#[global] Instance result_ret : MRet result := fun A a => Ok a.
#[global] Instance result_bind : MBind result := fun A B k m =>
  match m with
  | Ok a => k a
  | Raise e => Raise e
  end.

(** [a or b] on conditions whose evaluation may raise: [b] is evaluated
    only when [a] is false. *)
Definition or_else (a b : result bool) : result bool :=
  a ≫= fun x : bool => if x then Ok true else b.

(** [enumerate(l)], counting from [i]. *)
Fixpoint enumerate_from {A} (i : nat) (l : list A) : list (nat * A) :=
  match l with
  | [] => []
  | x :: l' => (i, x) :: enumerate_from (S i) l'
  end.

Definition enumerate {A} (l : list A) : list (nat * A) := enumerate_from 0 l.

(** [dict(pairs)]: later pairs overwrite earlier ones. *)
Definition dict `{Countable K} {V} (pairs : list (K * V)) : gmap K V :=
  fold_left (fun m kv => <[kv.1 := kv.2]> m) pairs ∅.

(** [d[k]] *)
Definition dict_getitem {V} (d : gmap str V) (k : str) : result V :=
  match d !! k with
  | Some v => Ok v
  | None => Raise (KeyError k)
  end.

(** ** numpy arrays of shape (n, m) *)

Record ndarray : Type := mk_ndarray { ncols : nat; rows : list (list float) }.

Definition shape (a : ndarray) : nat * nat := (length (rows a), ncols a).

(** Every row has the width the shape announces. *)
Definition well_shaped (a : ndarray) : Prop :=
  Forall (fun r => length r = ncols a) (rows a).

(** [np.zeros((n, m))] *)
Definition np_zeros (n m : nat) : ndarray :=
  {| ncols := m; rows := replicate n (replicate m 0%float) |}.

(** [a[i, j] = v]; an index outside the array raises IndexError. *)
Definition setitem (a : ndarray) (i j : nat) (v : float) : result ndarray :=
  match rows a !! i with
  | Some r =>
      if decide (j < ncols a)%nat
      then Ok {| ncols := ncols a; rows := <[i := <[j := v]> r]> (rows a) |}
      else Raise IndexError
  | None => Raise IndexError
  end.

(** [a[i, :] = v] *)
Definition setitem_row (a : ndarray) (i : nat) (v : float) : result ndarray :=
  match rows a !! i with
  | Some _ =>
      Ok {| ncols := ncols a; rows := <[i := replicate (ncols a) v]> (rows a) |}
  | None => Raise IndexError
  end.

(** [np.where(row == 1)[0]]: the columns whose entry compares equal to 1,
    in increasing order, counting from [j]. *)
Fixpoint where_eq_one_from (j : nat) (row : list float) : list nat :=
  match row with
  | [] => []
  | x :: row' =>
      if PrimFloat.eqb x 1%float
      then j :: where_eq_one_from (S j) row'
      else where_eq_one_from (S j) row'
  end.

Definition where_eq_one (row : list float) : list nat := where_eq_one_from 0 row.

(** ** The codec *)

Section Codec.

(** The full uppercase mapping of one code point, a table of the Python
    runtime: [str.upper] replaces every code point by its image, which
    may hold more than one code point. *)
Variable to_upper_full : char -> list char.

Definition str_upper (s : str) : str := flat_map to_upper_full s.

(** The body of the [for index, base in enumerate(sequence)] loop. *)
Definition encode_step (bases_encoding : gmap char nat)
    (encoding : ndarray) (index : nat) (base : char) : result ndarray :=
  match bases_encoding !! base with
  | Some col => setitem encoding index col 1%float
  | None => setitem_row encoding index 0.25%float
  end.

Fixpoint encode_loop (bases_encoding : gmap char nat)
    (items : list (nat * char)) (encoding : ndarray) : result ndarray :=
  match items with
  | [] => Ok encoding
  | (index, base) :: items' =>
      encoding' ← encode_step bases_encoding encoding index base;
      encode_loop bases_encoding items' encoding'
  end.

Definition _sequence_to_encoding (sequence : str)
    (bases_encoding : gmap char nat) : result ndarray :=
  let encoding := np_zeros (length sequence) 4 in
  let sequence := str_upper sequence in
  encode_loop bases_encoding (enumerate sequence) encoding.

End Codec.

(** The body of the [for row in encoding] loop: the symbol appended. The
    entries of [bases_arr] are single characters. *)
Definition decode_row (bases_arr : list char) (row : list float) : result char :=
  let base_pos := where_eq_one row in
  if decide (length base_pos ≠ 1%nat) then Ok 78%N
  else match base_pos !! 0%nat with
       | Some p =>
           match bases_arr !! p with
           | Some b => Ok b
           | None => Raise IndexError
           end
       | None => Raise IndexError
       end.

Fixpoint decode_loop (bases_arr : list char) (rws : list (list float))
    (sequence : list char) : result (list char) :=
  match rws with
  | [] => Ok sequence
  | row :: rws' =>
      b ← decode_row bases_arr row;
      decode_loop bases_arr rws' (sequence ++ [b])
  end.

Definition _encoding_to_sequence (encoding : ndarray)
    (bases_arr : list char) : result str :=
  decode_loop bases_arr (rows encoding) [].

(** ** Class attributes of [Genome] *)

Definition BASES_ARR : list char := py "ACGT".

Definition BASES_DICT : gmap char nat :=
  dict (map (fun ib => (ib.2, ib.1)) (enumerate BASES_ARR)).

(** ** The coordinate resolver *)

Definition strand_error_message (strand : str) : str :=
  py "Strand must be one of '+' or '-'. Input was " ++ strand.

(** [genome_sequence] is the bound method handed over by the caller. The
    condition of the first [if] reads [len_chrs[chrom]] before anything
    else, so an unknown chromosome raises KeyError there. *)
Definition _get_sequence_from_coords (len_chrs : gmap str Z)
    (genome_sequence : str -> Z -> Z -> str -> result str)
    (chrom : str) (start end_ : Z) (strand : str) : result str :=
  or_else (dict_getitem len_chrs chrom ≫= fun L : Z => Ok (start >? L))
    (or_else (dict_getitem len_chrs chrom ≫= fun L : Z => Ok (end_ >? L))
       (Ok (start <? 0)))
  ≫= fun out_of_bounds : bool =>
  if out_of_bounds then Ok []
  else if decide (strand = py "+") then genome_sequence chrom start end_ strand
  else if decide (strand = py "-") then genome_sequence chrom start end_ strand
  else Raise (ValueError (strand_error_message strand)).

(** ** The [Genome] class *)

Section Genome.

(** The indexed FASTA reader is a library outside this module. It is
    taken as given: the type of an opened file, the object a slice of a
    record returns, and the attributes the class reads from that object. *)
Variable Fasta : Type.
Variable Sequence : Type.
(** [genome[chrom][start:end]] *)
Variable fasta_slice : Fasta -> str -> Z -> Z -> result Sequence.
(** [.seq], [.reverse] and [.complement] *)
Variable seq_of : Sequence -> str.
Variable seq_reverse : Sequence -> Sequence.
Variable seq_complement : Sequence -> Sequence.

(** The uppercase table of the runtime, as in the codec. *)
Variable to_upper_full : char -> list char.

(** The attributes [__init__] leaves on the object. *)
Record Genome : Type := mk_Genome {
  genome : Fasta;
  chrs : list str;
  len_chrs : gmap str Z
}.

Definition _genome_sequence (self : Genome)
    (chrom : str) (start end_ : Z) (strand : str) : result str :=
  if decide (strand = py "+")
  then fasta_slice (genome self) chrom start end_
       ≫= fun s : Sequence => Ok (seq_of s)
  else fasta_slice (genome self) chrom start end_
       ≫= fun s : Sequence => Ok (seq_of (seq_complement (seq_reverse s))).

Definition get_sequence_from_coords (self : Genome)
    (chrom : str) (start end_ : Z) (strand : str) : result str :=
  _get_sequence_from_coords
    (len_chrs self) (_genome_sequence self) chrom start end_ strand.

Definition sequence_to_encoding (self : Genome) (sequence : str) : result ndarray :=
  _sequence_to_encoding to_upper_full sequence BASES_DICT.

Definition get_encoding_from_coords (self : Genome)
    (chrom : str) (start end_ : Z) (strand : str) : result ndarray :=
  get_sequence_from_coords self chrom start end_ strand
  ≫= fun sequence : str =>
  sequence_to_encoding self sequence
  ≫= fun encoding : ndarray =>
  Ok encoding.

Definition encoding_to_sequence (self : Genome) (encoding : ndarray) : result str :=
  _encoding_to_sequence encoding BASES_ARR.

End Genome.

Arguments mk_Genome {Fasta} _ _ _.
Arguments genome {Fasta} _.
Arguments chrs {Fasta} _.
Arguments len_chrs {Fasta} _.
Arguments _genome_sequence {Fasta Sequence} _ _ _ _ _ _ _ _ _.
Arguments get_sequence_from_coords {Fasta Sequence} _ _ _ _ _ _ _ _ _.
Arguments sequence_to_encoding {Fasta} _ _ _.
Arguments get_encoding_from_coords {Fasta Sequence} _ _ _ _ _ _ _ _ _ _.
Arguments encoding_to_sequence {Fasta} _ _.

(** ** Construction of a [Genome] *)

(** The order of [str]: code point by code point, a proper prefix first. *)
Fixpoint str_leb (a b : str) : bool :=
  match a, b with
  | [], _ => true
  | _ :: _, [] => false
  | x :: a', y :: b' =>
      if (x <? y)%N then true
      else if (y <? x)%N then false
      else str_leb a' b'
  end.

Definition str_le (a b : str) : Prop := str_leb a b = true.

#[global] Instance str_le_dec (a b : str) : Decision (str_le a b) :=
  decide (str_leb a b = true).

(** [sorted(names)] *)
Definition sorted (names : list str) : list str := merge_sort str_le names.

Section GenomeInit.

(** More of the reader: opening a file, the names of its records and the
    length of a record. *)
Variable Fasta : Type.
(** [Fasta(fa_file)] *)
Variable fasta_open : str -> result Fasta.
(** [genome.keys()] *)
Variable fasta_keys : Fasta -> list str.
(** [len(genome[chrom])] *)
Variable fasta_len : Fasta -> str -> result Z.

(** The [for chrom in self.chrs] loop of [_get_len_chrs]. *)
Fixpoint get_len_chrs_loop (genome : Fasta) (chrs : list str)
    (len_chrs : gmap str Z) : result (gmap str Z) :=
  match chrs with
  | [] => Ok len_chrs
  | chrom :: chrs' =>
      fasta_len genome chrom ≫= fun n : Z =>
      get_len_chrs_loop genome chrs' (<[chrom := n]> len_chrs)
  end.

(** [_get_len_chrs] reads [self.genome] and [self.chrs], the two
    attributes set before it is called. *)
Definition _get_len_chrs (genome : Fasta) (chrs : list str) : result (gmap str Z) :=
  get_len_chrs_loop genome chrs ∅.

Definition __init__ (fa_file : str) : result (Genome Fasta) :=
  fasta_open fa_file ≫= fun genome : Fasta =>
  let chrs := sorted (fasta_keys genome) in
  _get_len_chrs genome chrs ≫= fun len_chrs : gmap str Z =>
  Ok (mk_Genome genome chrs len_chrs).

End GenomeInit.

Arguments get_len_chrs_loop {Fasta} _ _ _ _.
Arguments _get_len_chrs {Fasta} _ _ _.
Arguments __init__ {Fasta} _ _ _ _.

(** ** An in-memory reader, for concrete runs *)

(** [l[start:end]] on a Python sequence. *)
Definition py_clamp (n i : Z) : Z :=
  if i <? 0 then Z.max 0 (i + n) else Z.min i n.

Definition py_slice {A} (l : list A) (start end_ : Z) : list A :=
  let n := Z.of_nat (length l) in
  let a := py_clamp n start in
  let b := py_clamp n end_ in
  take (Z.to_nat (b - a)) (drop (Z.to_nat a) l).

(** The file is a dictionary from record names to their sequence, and a
    slice is the plain string. *)
Definition mem_slice (g : gmap str str) (chrom : str) (start end_ : Z) : result str :=
  dict_getitem g chrom ≫= fun s : str => Ok (py_slice s start end_).

Definition mem_open (files : gmap str (gmap str str)) (fa_file : str)
    : result (gmap str str) :=
  dict_getitem files fa_file.

Definition mem_keys (g : gmap str str) : list str := (map_to_list g).*1.

Definition mem_len (g : gmap str str) (chrom : str) : result Z :=
  dict_getitem g chrom ≫= fun s : str => Ok (Z.of_nat (length s)).

(** ** Reference notions used by the statements *)

(** Uppercasing on the Basic Latin block. *)
Definition ascii_upper (c : char) : char :=
  if ((97 <=? c) && (c <=? 122))%N then (c - 32)%N else c.

(** On Basic Latin the runtime table is the ASCII one. *)
Definition upper_basic_latin (up : char -> list char) : Prop :=
  forall c, (c < 128)%N -> up c = [ascii_upper c].

(** No code point uppercases to the empty string. *)
Definition upper_nonempty (up : char -> list char) : Prop :=
  forall c, up c <> [].

(** A runtime table for concrete runs: Basic Latin, and U+00DF (sharp s)
    whose uppercase form is the two letters SS; other code points are left
    as they are. *)
Definition to_upper_full_latin (c : char) : list char :=
  if decide (c = 223%N) then [83%N; 83%N] else [ascii_upper c].

(** The sum of a row, accumulated left to right. *)
Definition row_sum (r : list float) : float :=
  fold_left PrimFloat.add r 0%float.

(** [x == 1] on floats. *)
Definition is_one (x : float) : Prop := PrimFloat.eqb x 1%float = true.

(** Exactly one column of [row] equals 1, and it is column [j]. *)
Definition sole_one_at (row : list float) (j : nat) : Prop :=
  (exists x, row !! j = Some x /\ is_one x)
  /\ forall j' y, row !! j' = Some y -> is_one y -> j' = j.

(** The interval fails the bounds check for a chromosome of length [L]. *)
Definition out_of_bounds (L start end_ : Z) : Prop :=
  start > L \/ end_ > L \/ start < 0.

(** The pairing partner of a base: A with T and C with G; any other symbol
    is kept. *)
Definition complement_base (c : char) : char :=
  if decide (c = 65%N) then 84%N
  else if decide (c = 84%N) then 65%N
  else if decide (c = 67%N) then 71%N
  else if decide (c = 71%N) then 67%N
  else c.

(** Substitute symbol-wise, then reverse the order. *)
Definition reverse_complement (s : str) : str :=
  rev (map complement_base s).

(** A complement table that pairs the four bases as [complement_base]. *)
Definition pairs_bases (table : char -> char) : Prop :=
  forall c, c ∈ BASES_ARR -> table c = complement_base c.

(** A one-record file, its length table and the reader's attributes. *)
Definition mem_file : gmap str str := {[ py "chr1" := py "ACGTTGCANNAC" ]}.

Definition mem_genome : Genome (gmap str str) :=
  mk_Genome mem_file [py "chr1"] {[ py "chr1" := 12 ]}.

(** What a symbol decodes to after encoding: itself when it is in the
    alphabet, N otherwise. *)
Definition collapse_symbol (c : char) : char :=
  if decide (c ∈ BASES_ARR) then c else 78%N.

(** [a[::-1, ::-1]]: the rows in reverse order, each row reversed. *)
Definition np_flip (a : ndarray) : ndarray :=
  {| ncols := ncols a; rows := rev (map (@rev float) (rows a)) |}.

(** A row whose only 1 stands in a column the alphabet does not have. *)
Definition row_beyond (bases_arr : list char) (row : list float) : Prop :=
  exists j, sole_one_at row j /\ (length bases_arr <= j)%nat.

(** A two-record file store. *)
Definition mem_files : gmap str (gmap str str) :=
  {[ py "toy.fa" := {[ py "chr2" := py "TTGACA"; py "chr10" := py "ACGTN" ]} ]}.

(** ** Properties of the encoder *)

(** The row the encoder writes for an uppercased symbol. *)
Definition one_hot (col : nat) : list float :=
  <[col := 1%float]> (replicate 4 0%float).

Definition uniform_row : list float := replicate 4 0.25%float.

Definition encode_row (d : gmap char nat) (c : char) : list float :=
  match d !! c with
  | Some col => one_hot col
  | None => uniform_row
  end.

(** Every column a dictionary names exists in an array of four columns. *)
Definition cols_ok (d : gmap char nat) : Prop :=
  forall c col, d !! c = Some col -> (col < 4)%nat.

Lemma BASES_DICT_unfold :
  BASES_DICT = <[84%N := 3%nat]> (<[71%N := 2%nat]> (<[67%N := 1%nat]> (<[65%N := 0%nat]> ∅))).
Proof. reflexivity. Qed.

Lemma BASES_DICT_lookup (c : char) :
  BASES_DICT !! c =
    if decide (c = 84%N) then Some 3%nat
    else if decide (c = 71%N) then Some 2%nat
    else if decide (c = 67%N) then Some 1%nat
    else if decide (c = 65%N) then Some 0%nat
    else None.
Proof.
  rewrite BASES_DICT_unfold.
  repeat (case_decide; [subst; by simplify_map_eq|]).
  by simplify_map_eq.
Qed.

Lemma BASES_DICT_cols_ok : cols_ok BASES_DICT.
Proof.
  intros c col. rewrite BASES_DICT_lookup.
  repeat case_decide; intros [= <-]; lia.
Qed.

Lemma encode_step_zero d pre k (c : char) :
  cols_ok d ->
  encode_step d {| ncols := 4; rows := pre ++ replicate (S k) (replicate 4 0%float) |}
              (length pre) c
  = Ok {| ncols := 4;
          rows := (pre ++ [encode_row d c]) ++ replicate k (replicate 4 0%float) |}.
Proof.
  intros Hd. unfold encode_step, encode_row, setitem, setitem_row; simpl.
  rewrite list_lookup_middle by done.
  destruct (d !! c) as [col|] eqn:E.
  - rewrite decide_True by (eapply Hd; eauto).
    rewrite <- (Nat.add_0_r (length pre)), insert_app_r; simpl.
    by rewrite <- app_assoc.
  - rewrite <- (Nat.add_0_r (length pre)), insert_app_r; simpl.
    by rewrite <- app_assoc.
Qed.

Lemma encode_step_full d pre (c : char) :
  encode_step d {| ncols := 4; rows := pre |} (length pre) c = Raise IndexError.
Proof.
  unfold encode_step, setitem, setitem_row; simpl.
  rewrite lookup_ge_None_2 by lia. by destruct (d !! c).
Qed.

(** The loop fills the zero rows in order and raises as soon as a symbol
    has no row left. *)
Lemma encode_loop_fill d (u : str) :
  cols_ok d ->
  forall pre k,
    encode_loop d (enumerate_from (length pre) u)
      {| ncols := 4; rows := pre ++ replicate k (replicate 4 0%float) |}
    = if decide (length u <= k)%nat
      then Ok {| ncols := 4;
                 rows := pre ++ map (encode_row d) u
                             ++ replicate (k - length u) (replicate 4 0%float) |}
      else Raise IndexError.
Proof.
  intros Hd. induction u as [|c u IH]; intros pre k;
    cbn [enumerate_from encode_loop length map app].
  - rewrite decide_True by lia. by rewrite Nat.sub_0_r.
  - destruct k as [|k].
    + cbn [replicate]. rewrite app_nil_r, encode_step_full.
      by rewrite decide_False by lia.
    + rewrite encode_step_zero by done. cbn [mbind result_bind].
      replace (S (length pre)) with (length (pre ++ [encode_row d c]))
        by (rewrite length_app; simpl; lia).
      rewrite IH. repeat case_decide; try lia; [|done].
      by rewrite <- app_assoc.
Qed.

Section EncoderFacts.

Variable up : char -> list char.

Lemma sequence_to_encoding_cases (s : str) d :
  cols_ok d ->
  _sequence_to_encoding up s d
  = if decide (length (str_upper up s) <= length s)%nat
    then Ok {| ncols := 4;
               rows := map (encode_row d) (str_upper up s)
                       ++ replicate (length s - length (str_upper up s))
                                    (replicate 4 0%float) |}
    else Raise IndexError.
Proof.
  intros Hd. unfold _sequence_to_encoding, enumerate, np_zeros.
  exact (encode_loop_fill d (str_upper up s) Hd [] (length s)).
Qed.

Lemma str_upper_length_ge (s : str) :
  upper_nonempty up -> (length s <= length (str_upper up s))%nat.
Proof.
  intros Hne. induction s as [|c s IH]; simpl; [lia|].
  rewrite length_app. specialize (Hne c).
  destruct (up c); [done|simpl; lia].
Qed.

(** When uppercasing keeps the length, the encoder succeeds and writes one
    row per uppercased symbol. *)
Lemma sequence_to_encoding_ok (s : str) d :
  cols_ok d ->
  length (str_upper up s) = length s ->
  _sequence_to_encoding up s d
  = Ok {| ncols := 4; rows := map (encode_row d) (str_upper up s) |}.
Proof.
  intros Hd Hlen. rewrite sequence_to_encoding_cases by done.
  rewrite decide_True by lia.
  by rewrite Hlen, Nat.sub_diag, app_nil_r.
Qed.

(** When uppercasing lengthens the string, the encoder raises. *)
Lemma sequence_to_encoding_raises (s : str) d :
  cols_ok d ->
  (length s < length (str_upper up s))%nat ->
  _sequence_to_encoding up s d = Raise IndexError.
Proof.
  intros Hd Hlen. rewrite sequence_to_encoding_cases by done.
  by rewrite decide_False by lia.
Qed.

Lemma sequence_to_encoding_inv (s : str) d enc :
  cols_ok d -> upper_nonempty up ->
  _sequence_to_encoding up s d = Ok enc ->
  length (str_upper up s) = length s
  /\ enc = {| ncols := 4; rows := map (encode_row d) (str_upper up s) |}.
Proof.
  intros Hd Hne. pose proof (str_upper_length_ge s Hne) as Hge.
  rewrite sequence_to_encoding_cases by done.
  case_decide as Hle; [|done]. intros [= <-].
  assert (length (str_upper up s) = length s) as Heq by lia.
  split; [done|]. by rewrite Heq, Nat.sub_diag, app_nil_r.
Qed.

Lemma str_upper_basic_latin (s : str) :
  upper_basic_latin up ->
  Forall (fun c => (c < 128)%N) s ->
  str_upper up s = map ascii_upper s.
Proof.
  intros Hup. induction 1 as [|c s Hc _ IH]; simpl; [done|].
  by rewrite (Hup c Hc), IH.
Qed.

End EncoderFacts.

Lemma encode_row_BASES (c : char) :
  encode_row BASES_DICT c =
    if decide (c = 84%N) then [0; 0; 0; 1]%float
    else if decide (c = 71%N) then [0; 0; 1; 0]%float
    else if decide (c = 67%N) then [0; 1; 0; 0]%float
    else if decide (c = 65%N) then [1; 0; 0; 0]%float
    else [0.25; 0.25; 0.25; 0.25]%float.
Proof.
  unfold encode_row. rewrite BASES_DICT_lookup.
  by repeat case_decide.
Qed.

Lemma row_sum_encode_row (c : char) :
  row_sum (encode_row BASES_DICT c) = 1%float.
Proof.
  rewrite encode_row_BASES. by repeat case_decide.
Qed.

(** ** Properties of the decoder *)

Lemma elem_of_where_eq_one_from (j : nat) (row : list float) (k : nat) :
  k ∈ where_eq_one_from j row
  <-> exists i x, k = (j + i)%nat /\ row !! i = Some x /\ is_one x.
Proof.
  revert j. induction row as [|x row IH]; intros j; simpl.
  - split; [by intros ?%elem_of_nil|by intros (i & y & _ & ? & _)].
  - assert (k ∈ where_eq_one_from (S j) row
            <-> exists i y, k = (j + S i)%nat /\ row !! i = Some y /\ is_one y)
      as IH'.
    { rewrite IH. by setoid_rewrite Nat.add_succ_r. }
    destruct (PrimFloat.eqb x 1) eqn:E.
    + rewrite elem_of_cons, IH'. split.
      * intros [->|(i & y & -> & Hi & Hy)].
        -- exists 0%nat, x. by rewrite Nat.add_0_r.
        -- by exists (S i), y.
      * intros ([|i] & y & -> & Hi & Hy).
        -- left. lia.
        -- right. by exists i, y.
    + rewrite IH'. split.
      * intros (i & y & -> & Hi & Hy). by exists (S i), y.
      * intros ([|i] & y & -> & Hi & Hy).
        -- simpl in Hi. injection Hi as ->. unfold is_one in Hy. congruence.
        -- by exists i, y.
Qed.

Lemma where_eq_one_from_NoDup (j : nat) (row : list float) :
  NoDup (where_eq_one_from j row).
Proof.
  revert j. induction row as [|x row IH]; intros j; simpl.
  - constructor.
  - destruct (PrimFloat.eqb x 1); [|done].
    constructor; [|done].
    rewrite elem_of_where_eq_one_from. intros (i & y & ? & _). lia.
Qed.

Lemma elem_of_where_eq_one (row : list float) (k : nat) :
  k ∈ where_eq_one row <-> exists x, row !! k = Some x /\ is_one x.
Proof.
  unfold where_eq_one. rewrite elem_of_where_eq_one_from. split.
  - intros (i & x & -> & ?). by exists x.
  - intros (x & ?). by exists k, x.
Qed.

Lemma where_eq_one_sole (row : list float) (j : nat) :
  sole_one_at row j <-> where_eq_one row = [j].
Proof.
  split.
  - intros [Hj Huniq].
    assert (forall k, k ∈ where_eq_one row -> k = j) as Hall.
    { intros k (y & ? & ?)%elem_of_where_eq_one. eauto. }
    apply elem_of_where_eq_one in Hj.
    pose proof (where_eq_one_from_NoDup 0 row) as Hnd.
    fold (where_eq_one row) in Hnd.
    destruct (where_eq_one row) as [|a [|b l]].
    + by apply elem_of_nil in Hj.
    + f_equal. apply Hall. left.
    + exfalso. apply NoDup_cons in Hnd as [Hnotin _]. apply Hnotin.
      rewrite (Hall a), (Hall b); [left| |left]. right; left.
  - intros Hw. split.
    + apply elem_of_where_eq_one. rewrite Hw. left.
    + intros j' y Hj' Hy.
      assert (j' ∈ where_eq_one row) as Hin
        by (apply elem_of_where_eq_one; eauto).
      rewrite Hw in Hin. by apply list_elem_of_singleton in Hin.
Qed.

Lemma decode_row_sole (bases_arr : list char) (row : list float) j (b : char) :
  sole_one_at row j -> bases_arr !! j = Some b ->
  decode_row bases_arr row = Ok b.
Proof.
  intros Hw%where_eq_one_sole Hb. unfold decode_row. rewrite Hw. simpl.
  by rewrite Hb.
Qed.

Lemma decode_row_other (bases_arr : list char) (row : list float) :
  ~ (exists j, sole_one_at row j) ->
  decode_row bases_arr row = Ok 78%N.
Proof.
  intros Hno. unfold decode_row.
  destruct (where_eq_one row) as [|j [|k l]] eqn:E; try done.
  exfalso. apply Hno. exists j. by apply where_eq_one_sole.
Qed.

Lemma sole_one_at_lt (row : list float) j : sole_one_at row j -> (j < length row)%nat.
Proof. intros [(x & Hx & _) _]. by eapply lookup_lt_Some. Qed.

Lemma sole_one_at_dec (row : list float) :
  (exists j, sole_one_at row j) \/ ~ (exists j, sole_one_at row j).
Proof.
  destruct (where_eq_one row) as [|j [|k l]] eqn:E.
  - right. intros (j & Hj%where_eq_one_sole). congruence.
  - left. exists j. by apply where_eq_one_sole.
  - right. intros (j' & Hj%where_eq_one_sole). congruence.
Qed.

(** A row no wider than the alphabet always decodes. *)
Lemma decode_row_total (bases_arr : list char) (row : list float) :
  (length row <= length bases_arr)%nat ->
  exists b, decode_row bases_arr row = Ok b.
Proof.
  intros Hlen. destruct (sole_one_at_dec row) as [(j & Hj)|Hno].
  - pose proof (sole_one_at_lt row j Hj) as Hlt.
    destruct (lookup_lt_is_Some_2 bases_arr j) as [b Hb]; [lia|].
    exists b. by eapply decode_row_sole.
  - eexists. by apply decode_row_other.
Qed.

(** The loop appends one symbol per row to what it was given. *)
Lemma decode_loop_rows (bases_arr : list char) (rws : list (list float)) :
  Forall (fun r => (length r <= length bases_arr)%nat) rws ->
  forall acc, exists out,
    decode_loop bases_arr rws acc = Ok (acc ++ out)
    /\ Forall2 (fun r b => decode_row bases_arr r = Ok b) rws out.
Proof.
  induction 1 as [|row rws Hrow _ IH]; intros acc; simpl.
  - exists []. by rewrite app_nil_r.
  - destruct (decode_row_total bases_arr row Hrow) as [b Hb].
    destruct (IH (acc ++ [b])) as (out & Hout & Hall).
    exists (b :: out). rewrite Hb. simpl. rewrite Hout, <- app_assoc.
    split; [done|by constructor].
Qed.

Lemma decode_row_encode_row (b : char) :
  b ∈ BASES_ARR ->
  decode_row BASES_ARR (encode_row BASES_DICT b) = Ok b.
Proof.
  intros Hb. apply list_elem_of_In in Hb. simpl in Hb.
  destruct Hb as [<-|[<-|[<-|[<-|[]]]]]; reflexivity.
Qed.

Lemma decode_loop_encode_rows (u : str) :
  Forall (fun b => b ∈ BASES_ARR) u ->
  forall acc,
    decode_loop BASES_ARR (map (encode_row BASES_DICT) u) acc = Ok (acc ++ u).
Proof.
  induction 1 as [|b u Hb _ IH]; intros acc; simpl.
  - by rewrite app_nil_r.
  - rewrite decode_row_encode_row by done. simpl.
    by rewrite IH, <- app_assoc.
Qed.

Lemma ascii_upper_base (c : char) :
  c ∈ py "ACGTacgt" -> (c < 128)%N /\ ascii_upper c ∈ BASES_ARR.
Proof.
  intros Hc. apply list_elem_of_In in Hc. simpl in Hc.
  destruct Hc as [<-|[<-|[<-|[<-|[<-|[<-|[<-|[<-|[]]]]]]]]];
    (split; [reflexivity|]); apply list_elem_of_In; simpl; tauto.
Qed.

Lemma to_upper_full_latin_basic : upper_basic_latin to_upper_full_latin.
Proof.
  intros c Hc. unfold to_upper_full_latin. rewrite decide_False; [done|lia].
Qed.

Lemma to_upper_full_latin_nonempty : upper_nonempty to_upper_full_latin.
Proof. intros c. unfold to_upper_full_latin. by case_decide. Qed.

(** ** The claims on the codec *)

(** C1: for a string over A, C, G, T in any case, the encoder succeeds and
    decoding its result gives back the string uppercased. *)
Theorem decode_encode_roundtrip (up : char -> list char) (s : str) :
  upper_basic_latin up ->
  Forall (fun c => c ∈ py "ACGTacgt") s ->
  exists enc,
    _sequence_to_encoding up s BASES_DICT = Ok enc
    /\ _encoding_to_sequence enc BASES_ARR = Ok (str_upper up s)
    /\ str_upper up s = map ascii_upper s.
Proof.
  intros Hup Hs.
  assert (str_upper up s = map ascii_upper s) as Hupper.
  { apply str_upper_basic_latin; [done|].
    eapply Forall_impl; [exact Hs|]. intros c Hc. by apply ascii_upper_base. }
  eexists. split; [|split; [|done]].
  - apply sequence_to_encoding_ok; [apply BASES_DICT_cols_ok|].
    by rewrite Hupper, length_map.
  - unfold _encoding_to_sequence. simpl. rewrite Hupper.
    apply (decode_loop_encode_rows (map ascii_upper s)).
    apply Forall_map. eapply Forall_impl; [exact Hs|].
    intros c Hc. by apply ascii_upper_base.
Qed.

Lemma decode_encode_roundtrip_witness :
  exists enc,
    _sequence_to_encoding to_upper_full_latin (py "gAtTc") BASES_DICT = Ok enc
    /\ _encoding_to_sequence enc BASES_ARR
       = Ok (str_upper to_upper_full_latin (py "gAtTc"))
    /\ str_upper to_upper_full_latin (py "gAtTc") = map ascii_upper (py "gAtTc").
Proof.
  apply decode_encode_roundtrip.
  - exact to_upper_full_latin_basic.
  - repeat constructor.
Defined.

(** C2, at the string made of the single letter U+00DF: uppercasing gives
    the two letters SS, the array was allocated with one row, and the
    write of the second row raises IndexError. *)
Theorem sequence_to_encoding_sharp_s (up : char -> list char) :
  up 223%N = [83%N; 83%N] ->
  _sequence_to_encoding up [223%N] BASES_DICT = Raise IndexError.
Proof.
  intros Hup. apply sequence_to_encoding_raises; [apply BASES_DICT_cols_ok|].
  simpl. rewrite Hup. simpl. lia.
Qed.

Lemma sequence_to_encoding_sharp_s_witness :
  _sequence_to_encoding to_upper_full_latin [223%N] BASES_DICT = Raise IndexError.
Proof. apply sequence_to_encoding_sharp_s. reflexivity. Defined.

(** What C2 says of the rows holds whenever uppercasing keeps the length
    of the string: the shape is (len(s), 4), A, C, G and T get the one-hot
    row of their index and every other symbol the row of four 0.25. *)
Lemma sequence_to_encoding_rows (up : char -> list char) (s : str) :
  length (str_upper up s) = length s ->
  exists enc,
    _sequence_to_encoding up s BASES_DICT = Ok enc
    /\ shape enc = (length s, 4%nat)
    /\ forall i c, str_upper up s !! i = Some c ->
         rows enc !! i = Some
           (if decide (c = 65%N) then [1; 0; 0; 0]%float
            else if decide (c = 67%N) then [0; 1; 0; 0]%float
            else if decide (c = 71%N) then [0; 0; 1; 0]%float
            else if decide (c = 84%N) then [0; 0; 0; 1]%float
            else [0.25; 0.25; 0.25; 0.25]%float).
Proof.
  intros Hlen. eexists. split; [|split].
  - apply sequence_to_encoding_ok; [apply BASES_DICT_cols_ok|done].
  - unfold shape. simpl. by rewrite length_map, Hlen.
  - intros i c Hc. simpl. rewrite list_lookup_fmap, Hc. simpl.
    rewrite encode_row_BASES. by repeat case_decide; subst.
Qed.

(** C3: an encoding, an array of at most four columns, always decodes, to
    a string with one symbol per row: the alphabet symbol of column [j]
    when [j] is the only column equal to 1, and N when no column or
    several columns equal 1. *)
Theorem encoding_to_sequence_rows (enc : ndarray) :
  (ncols enc <= 4)%nat -> well_shaped enc ->
  exists s,
    _encoding_to_sequence enc BASES_ARR = Ok s
    /\ length s = length (rows enc)
    /\ forall i row, rows enc !! i = Some row ->
         (forall j, sole_one_at row j ->
            exists b, BASES_ARR !! j = Some b /\ s !! i = Some b)
         /\ (~ (exists j, sole_one_at row j) -> s !! i = Some 78%N).
Proof.
  intros Hcols Hshape. unfold well_shaped in Hshape.
  destruct (decode_loop_rows BASES_ARR (rows enc)) with (acc := @nil N)
    as (s & Hs & Hall).
  { eapply Forall_impl; [exact Hshape|]. intros r ->. simpl. lia. }
  exists s. split; [exact Hs|]. split.
  { symmetry. by eapply Forall2_length. }
  intros i row Hrow.
  destruct (Forall2_lookup_l _ _ _ _ _ Hall Hrow) as (b & Hb & Hdec).
  assert (length row = ncols enc) as Hlen
    by (eapply (proj1 (Forall_lookup _ _) Hshape); eauto).
  split.
  - intros j Hj. pose proof (sole_one_at_lt row j Hj) as Hlt.
    destruct (lookup_lt_is_Some_2 BASES_ARR j) as [b' Hb']; [simpl; lia|].
    exists b'. split; [done|].
    rewrite (decode_row_sole _ _ _ _ Hj Hb') in Hdec. congruence.
  - intros Hno. rewrite (decode_row_other _ _ Hno) in Hdec. congruence.
Qed.

Lemma encoding_to_sequence_rows_witness :
  exists s,
    _encoding_to_sequence
      {| ncols := 4;
         rows := [[0; 0; 1; 0]; [0.25; 0.25; 0.25; 0.25]; [1; 1; 0; 0]]%float |}
      BASES_ARR = Ok s
    /\ length s = 3%nat.
Proof.
  destruct (encoding_to_sequence_rows
    {| ncols := 4;
       rows := [[0; 0; 1; 0]; [0.25; 0.25; 0.25; 0.25]; [1; 1; 0; 0]]%float |})
    as (s & Hs & Hlen & _).
  - simpl. lia.
  - repeat constructor.
  - exists s. split; [exact Hs|exact Hlen].
Defined.

(** C10: the rows of every encoding the encoder returns sum to 1, and it
    returns one whenever uppercasing keeps the length of the string. *)
Theorem encoding_rows_sum_to_one (up : char -> list char) (s : str) :
  upper_nonempty up ->
  (length (str_upper up s) = length s ->
   exists enc, _sequence_to_encoding up s BASES_DICT = Ok enc)
  /\ forall enc,
       _sequence_to_encoding up s BASES_DICT = Ok enc ->
       length (rows enc) = length s
       /\ Forall (fun r => row_sum r = 1%float) (rows enc).
Proof.
  intros Hne. split.
  - intros Hlen. eexists.
    apply sequence_to_encoding_ok; [apply BASES_DICT_cols_ok|done].
  - intros enc Henc.
    apply sequence_to_encoding_inv in Henc as [Hlen ->];
      [|apply BASES_DICT_cols_ok|done].
    simpl. split; [by rewrite length_map|].
    apply Forall_map, Forall_forall. intros c _. apply row_sum_encode_row.
Qed.

Lemma encoding_rows_sum_to_one_witness :
  exists enc,
    _sequence_to_encoding to_upper_full_latin (py "aNx-T") BASES_DICT = Ok enc
    /\ length (rows enc) = 5%nat
    /\ Forall (fun r => row_sum r = 1%float) (rows enc).
Proof.
  destruct (encoding_rows_sum_to_one to_upper_full_latin (py "aNx-T")
              to_upper_full_latin_nonempty) as [Hex Hall].
  destruct Hex as [enc Henc]; [reflexivity|].
  exists enc. split; [exact Henc|]. exact (Hall enc Henc).
Defined.

(** ** Properties of the coordinate resolver *)

Lemma out_of_bounds_bool (L start end_ : Z) :
  (start >? L) || (end_ >? L) || (start <? 0) = true <-> out_of_bounds L start end_.
Proof. unfold out_of_bounds. lia. Qed.

(** For a chromosome of the table, the resolver is a bounds test followed
    by the dispatch on the strand. *)
Lemma get_sequence_known (len_chrs : gmap str Z)
    (gs : str -> Z -> Z -> str -> result str)
    (chrom : str) (L start end_ : Z) (strand : str) :
  len_chrs !! chrom = Some L ->
  _get_sequence_from_coords len_chrs gs chrom start end_ strand
  = if (start >? L) || (end_ >? L) || (start <? 0) then Ok []
    else if decide (strand = py "+") then gs chrom start end_ strand
    else if decide (strand = py "-") then gs chrom start end_ strand
    else Raise (ValueError (strand_error_message strand)).
Proof.
  intros HL. unfold _get_sequence_from_coords, or_else, dict_getitem.
  rewrite HL. cbn [mbind result_bind].
  by destruct (start >? L), (end_ >? L), (start <? 0).
Qed.

Lemma get_sequence_out_of_bounds (len_chrs : gmap str Z)
    (gs : str -> Z -> Z -> str -> result str)
    (chrom : str) (L start end_ : Z) (strand : str) :
  len_chrs !! chrom = Some L -> out_of_bounds L start end_ ->
  _get_sequence_from_coords len_chrs gs chrom start end_ strand = Ok [].
Proof.
  intros HL Hout. rewrite (get_sequence_known _ _ _ L) by done.
  apply out_of_bounds_bool in Hout. by rewrite Hout.
Qed.

Lemma get_sequence_in_bounds (len_chrs : gmap str Z)
    (gs : str -> Z -> Z -> str -> result str)
    (chrom : str) (L start end_ : Z) (strand : str) :
  len_chrs !! chrom = Some L -> ~ out_of_bounds L start end_ ->
  _get_sequence_from_coords len_chrs gs chrom start end_ strand
  = if decide (strand = py "+") then gs chrom start end_ strand
    else if decide (strand = py "-") then gs chrom start end_ strand
    else Raise (ValueError (strand_error_message strand)).
Proof.
  intros HL Hin. rewrite (get_sequence_known _ _ _ L) by done.
  rewrite <- out_of_bounds_bool in Hin.
  by destruct ((start >? L) || (end_ >? L) || (start <? 0)).
Qed.

Lemma get_sequence_unknown (len_chrs : gmap str Z)
    (gs : str -> Z -> Z -> str -> result str)
    (chrom : str) (start end_ : Z) (strand : str) :
  len_chrs !! chrom = None ->
  _get_sequence_from_coords len_chrs gs chrom start end_ strand
  = Raise (KeyError chrom).
Proof.
  intros HL. unfold _get_sequence_from_coords, or_else, dict_getitem.
  by rewrite HL.
Qed.

(** ** The claims on the coordinate resolver *)

(** C4, as the code has it: for a chromosome of length [L], an interval
    with [start > L] or [end > L] or [start < 0] gives the empty string,
    whatever the reader and the strand are; any other interval gives what
    the dispatch on the strand gives, the answer of the reader on '+' and
    '-' and ValueError otherwise. So the call returns the empty string
    exactly when the interval fails the test or the reader, asked on a
    valid strand, answers the empty string. A negative [end] alone does
    not fail the test; (L, L+1) and (-1, 5) give the empty string. *)
Theorem bounds_check_soft_failure (len_chrs : gmap str Z)
    (gs : str -> Z -> Z -> str -> result str)
    (chrom : str) (L start end_ : Z) (strand : str) :
  len_chrs !! chrom = Some L ->
  (out_of_bounds L start end_ ->
   _get_sequence_from_coords len_chrs gs chrom start end_ strand = Ok [])
  /\ (~ out_of_bounds L start end_ ->
      _get_sequence_from_coords len_chrs gs chrom start end_ strand
      = if decide (strand = py "+") then gs chrom start end_ strand
        else if decide (strand = py "-") then gs chrom start end_ strand
        else Raise (ValueError (strand_error_message strand)))
  /\ (_get_sequence_from_coords len_chrs gs chrom start end_ strand = Ok []
      <-> out_of_bounds L start end_
          \/ ((strand = py "+" \/ strand = py "-")
              /\ gs chrom start end_ strand = Ok []))
  /\ (end_ < 0 -> 0 <= start <= L -> ~ out_of_bounds L start end_)
  /\ _get_sequence_from_coords len_chrs gs chrom L (L + 1) strand = Ok []
  /\ _get_sequence_from_coords len_chrs gs chrom (-1) 5 strand = Ok [].
Proof.
  intros HL. split; [|split; [|split; [|split; [|split]]]].
  - by apply get_sequence_out_of_bounds.
  - by apply get_sequence_in_bounds.
  - destruct (decide (out_of_bounds L start end_)) as [Hout|Hin].
    + rewrite (get_sequence_out_of_bounds _ _ _ L) by done. split; auto.
    + rewrite (get_sequence_in_bounds _ _ _ L) by done. split.
      * intros Hres. right. repeat case_decide; try done; auto.
      * intros [Hout|[[->| ->] Hres]]; [done| |].
        -- by rewrite decide_True.
        -- rewrite decide_False by discriminate. by rewrite decide_True.
  - unfold out_of_bounds. lia.
  - apply (get_sequence_out_of_bounds _ _ _ L); [done|].
    unfold out_of_bounds. lia.
  - apply (get_sequence_out_of_bounds _ _ _ L); [done|].
    unfold out_of_bounds. lia.
Qed.

Lemma bounds_check_soft_failure_witness :
  _get_sequence_from_coords {[ py "chr1" := 12 ]}
    (fun _ _ _ _ => Ok (py "ACGT")) (py "chr1") 12 13 (py "+") = Ok []
  /\ ~ out_of_bounds 12 3 (-2).
Proof.
  destruct (bounds_check_soft_failure {[ py "chr1" := 12 ]}
              (fun _ _ _ _ => Ok (py "ACGT")) (py "chr1") 12 12 13 (py "+"))
    as (_ & _ & _ & _ & Hend & _); [apply lookup_singleton_eq|].
  destruct (bounds_check_soft_failure {[ py "chr1" := 12 ]}
              (fun _ _ _ _ => Ok (py "ACGT")) (py "chr1") 12 3 (-2) (py "+"))
    as (_ & _ & _ & Hneg & _); [apply lookup_singleton_eq|].
  split; [exact Hend|]. apply Hneg; lia.
Defined.

(** The claim read to the letter fails on an empty interval inside the
    chromosome: on the in-memory file, whose record chr1 has length 12,
    the interval (3, 3) passes the bounds test and the forward strand
    still gives the empty string. *)
Lemma empty_string_without_failed_bounds :
  len_chrs mem_genome !! py "chr1" = Some 12
  /\ get_sequence_from_coords mem_slice id (@rev N) (map complement_base)
       mem_genome (py "chr1") 3 3 (py "+") = Ok []
  /\ ~ out_of_bounds 12 3 3
  /\ ~ (get_sequence_from_coords mem_slice id (@rev N) (map complement_base)
          mem_genome (py "chr1") 3 3 (py "+") = Ok []
        <-> out_of_bounds 12 3 3).
Proof.
  assert (~ out_of_bounds 12 3 3) as Hin by (unfold out_of_bounds; lia).
  assert (get_sequence_from_coords mem_slice id (@rev N) (map complement_base)
            mem_genome (py "chr1") 3 3 (py "+") = Ok []) as Hres
    by (vm_compute; reflexivity).
  split; [apply lookup_singleton_eq|]. split; [exact Hres|].
  split; [exact Hin|]. intros [Himp _]. apply Hin, Himp, Hres.
Qed.

(** C5: for a chromosome of the table and an interval that passes the
    bounds test, a strand that is neither '+' nor '-' raises the
    ValueError whose message ends with that strand. *)
Theorem invalid_strand_raises (len_chrs : gmap str Z)
    (gs : str -> Z -> Z -> str -> result str)
    (chrom : str) (L start end_ : Z) (strand : str) :
  len_chrs !! chrom = Some L ->
  ~ out_of_bounds L start end_ ->
  strand <> py "+" -> strand <> py "-" ->
  _get_sequence_from_coords len_chrs gs chrom start end_ strand
  = Raise (ValueError
      (py "Strand must be one of '+' or '-'. Input was " ++ strand)).
Proof.
  intros HL Hin Hplus Hminus.
  rewrite (get_sequence_in_bounds _ _ _ L) by done.
  by rewrite !decide_False by done.
Qed.

Lemma invalid_strand_raises_witness :
  _get_sequence_from_coords {[ py "chr1" := 12 ]}
      (fun _ _ _ _ => Ok (py "ACGT"))
      (py "chr1") 0 10 (py "sideways")
    = Raise (ValueError
        (py "Strand must be one of '+' or '-'. Input was sideways")).
Proof.
  apply (invalid_strand_raises {[ py "chr1" := 12 ]}
           (fun _ _ _ _ => Ok (py "ACGT")) (py "chr1") 12 0 10
           (py "sideways")).
  - apply lookup_singleton_eq.
  - unfold out_of_bounds. lia.
  - discriminate.
  - discriminate.
Defined.

(** C6: the bounds test comes first. An interval that fails it gives the
    empty string whatever the strand is, and a call that raises, the
    strand error included, had an interval that passed it. *)
Theorem bounds_before_strand (len_chrs : gmap str Z)
    (gs : str -> Z -> Z -> str -> result str)
    (chrom : str) (L start end_ : Z) (strand : str) :
  len_chrs !! chrom = Some L ->
  (out_of_bounds L start end_ ->
   _get_sequence_from_coords len_chrs gs chrom start end_ strand = Ok [])
  /\ (forall e,
        _get_sequence_from_coords len_chrs gs chrom start end_ strand = Raise e ->
        ~ out_of_bounds L start end_).
Proof.
  intros HL. split.
  - by apply get_sequence_out_of_bounds.
  - intros e He Hout.
    rewrite (get_sequence_out_of_bounds _ _ _ L) in He by done. done.
Qed.

Lemma bounds_before_strand_witness :
  _get_sequence_from_coords {[ py "chr1" := 12 ]}
      (fun _ _ _ _ => Ok (py "ACGT"))
      (py "chr1") 5 40 (py "sideways") = Ok [].
Proof.
  apply (bounds_before_strand {[ py "chr1" := 12 ]}
           (fun _ _ _ _ => Ok (py "ACGT")) (py "chr1") 12 5 40
           (py "sideways")).
  - apply lookup_singleton_eq.
  - unfold out_of_bounds. lia.
Defined.

(** C9: a chromosome that is not in the length table raises KeyError on
    its name, for every interval and strand; the call returns a string,
    the empty one included, only for a chromosome of the table. *)
Theorem unknown_chromosome_raises (len_chrs : gmap str Z)
    (gs : str -> Z -> Z -> str -> result str)
    (chrom : str) (start end_ : Z) (strand : str) :
  (len_chrs !! chrom = None ->
   _get_sequence_from_coords len_chrs gs chrom start end_ strand
   = Raise (KeyError chrom))
  /\ (forall s,
        _get_sequence_from_coords len_chrs gs chrom start end_ strand = Ok s ->
        is_Some (len_chrs !! chrom)).
Proof.
  split.
  - apply get_sequence_unknown.
  - intros s Hs. destruct (len_chrs !! chrom) as [L|] eqn:HL; [by eexists|].
    rewrite get_sequence_unknown in Hs by done. done.
Qed.

Lemma unknown_chromosome_raises_witness :
  _get_sequence_from_coords {[ py "chr1" := 12 ]}
      (fun _ _ _ _ => Ok (py "ACGT"))
      (py "chrX") (-1) 40 (py "+") = Raise (KeyError (py "chrX")).
Proof.
  apply (unknown_chromosome_raises {[ py "chr1" := 12 ]}
           (fun _ _ _ _ => Ok (py "ACGT")) (py "chrX") (-1) 40
           (py "+")).
  apply lookup_singleton_ne. discriminate.
Defined.

(** ** The claims on the [Genome] class *)

Section GenomeFacts.

Variable Fasta : Type.
Variable Sequence : Type.
Variable fasta_slice : Fasta -> str -> Z -> Z -> result Sequence.
Variable seq_of : Sequence -> str.
Variable seq_reverse : Sequence -> Sequence.
Variable seq_complement : Sequence -> Sequence.
Variable to_upper_full : char -> list char.

(** What the class relies on from the reader: [.reverse] reverses the
    symbols of a slice and [.complement] maps them one by one through a
    table that pairs A with T and C with G. *)
Variable complement_table : char -> char.
Hypothesis seq_reverse_seq :
  forall x, seq_of (seq_reverse x) = rev (seq_of x).
Hypothesis seq_complement_seq :
  forall x, seq_of (seq_complement x) = map complement_table (seq_of x).
Hypothesis complement_table_bases : pairs_bases complement_table.

#[local] Abbreviation get_sequence :=
  (get_sequence_from_coords fasta_slice seq_of seq_reverse seq_complement).
#[local] Abbreviation get_encoding :=
  (get_encoding_from_coords
     fasta_slice seq_of seq_reverse seq_complement to_upper_full).

Lemma map_complement_bases (s : str) :
  Forall (fun c => c ∈ BASES_ARR) s ->
  map complement_table s = map complement_base s.
Proof using complement_table_bases.
  induction 1 as [|c s Hc _ IH]; simpl; [done|].
  by rewrite (complement_table_bases c Hc), IH.
Qed.

(** C7: for a chromosome of the table and an interval that passes the
    bounds test, the sequence of the reverse strand is the sequence of the
    forward strand complemented symbol by symbol and then reversed; on a
    forward sequence made of A, C, G and T that is its reverse complement
    with A and T, C and G exchanged. *)
Theorem reverse_strand_is_reverse_complement (self : Genome Fasta)
    (chrom : str) (L i j : Z) :
  len_chrs self !! chrom = Some L ->
  ~ out_of_bounds L i j ->
  get_sequence self chrom i j (py "-")
  = (get_sequence self chrom i j (py "+")
     ≫= fun fwd : str => Ok (rev (map complement_table fwd)))
  /\ forall fwd,
       get_sequence self chrom i j (py "+") = Ok fwd ->
       Forall (fun c => c ∈ BASES_ARR) fwd ->
       get_sequence self chrom i j (py "-") = Ok (reverse_complement fwd).
Proof using seq_reverse_seq seq_complement_seq complement_table_bases.
  intros HL Hin.
  assert (get_sequence self chrom i j (py "-")
          = (get_sequence self chrom i j (py "+")
             ≫= fun fwd : str => Ok (rev (map complement_table fwd)))) as Heq.
  { unfold get_sequence_from_coords.
    rewrite !(get_sequence_in_bounds _ _ _ L) by done.
    rewrite (decide_False (P := py "-" = py "+")) by discriminate.
    rewrite !decide_True by done.
    unfold _genome_sequence.
    rewrite (decide_False (P := py "-" = py "+")) by discriminate.
    rewrite decide_True by done.
    destruct (fasta_slice (genome self) chrom i j) as [x|e]; [|done].
    cbn [mbind result_bind].
    by rewrite seq_complement_seq, seq_reverse_seq, map_rev. }
  split; [exact Heq|].
  intros fwd Hfwd Hbases. rewrite Heq, Hfwd. cbn [mbind result_bind].
  unfold reverse_complement. by rewrite map_complement_bases.
Qed.

(** C8: the encoding of an interval is the encoder applied to the sequence
    of that interval. An exception of the sequence lookup is the exception
    of the encoding lookup, and an interval that fails the bounds test
    gives the array of shape (0, 4). *)
Theorem get_encoding_is_encode_of_get_sequence (self : Genome Fasta)
    (chrom : str) (start end_ : Z) (strand : str) :
  get_encoding self chrom start end_ strand
  = (get_sequence self chrom start end_ strand
     ≫= fun sequence : str =>
     _sequence_to_encoding to_upper_full sequence BASES_DICT)
  /\ (forall e,
        get_sequence self chrom start end_ strand = Raise e ->
        get_encoding self chrom start end_ strand = Raise e)
  /\ (forall L,
        len_chrs self !! chrom = Some L ->
        out_of_bounds L start end_ ->
        get_sequence self chrom start end_ strand = Ok []
        /\ get_encoding self chrom start end_ strand = Ok (np_zeros 0 4)
        /\ shape (np_zeros 0 4) = (0%nat, 4%nat)).
Proof.
  assert (get_encoding self chrom start end_ strand
          = (get_sequence self chrom start end_ strand
             ≫= fun sequence : str =>
             _sequence_to_encoding to_upper_full sequence BASES_DICT)) as Heq.
  { unfold get_encoding_from_coords, sequence_to_encoding.
    destruct (get_sequence_from_coords _ _ _ _ _ _ _ _ _) as [sequence|e];
      [|done].
    cbn [mbind result_bind].
    by destruct (_sequence_to_encoding _ _ _). }
  split; [exact Heq|]. split.
  - intros e He. by rewrite Heq, He.
  - intros L HL Hout.
    assert (get_sequence self chrom start end_ strand = Ok []) as Hseq.
    { unfold get_sequence_from_coords.
      by apply (get_sequence_out_of_bounds _ _ _ L). }
    split; [exact Hseq|]. split; [|done].
    by rewrite Heq, Hseq.
Qed.

End GenomeFacts.

(** ** Runs on the in-memory reader *)

Lemma reverse_strand_is_reverse_complement_witness :
  get_sequence_from_coords mem_slice id (@rev N) (map complement_base)
    mem_genome (py "chr1") 2 6 (py "-") = Ok (py "CAAC").
Proof.
  destruct (reverse_strand_is_reverse_complement
              (gmap str str) str mem_slice id (@rev N) (map complement_base)
              complement_base
              (fun _ => eq_refl) (fun _ => eq_refl) (fun _ _ => eq_refl)
              mem_genome (py "chr1") 12 2 6) as [_ Hrev].
  - apply lookup_singleton_eq.
  - unfold out_of_bounds. lia.
  - apply (Hrev (py "GTTG")).
    + vm_compute. reflexivity.
    + repeat constructor.
Defined.

Lemma get_encoding_is_encode_of_get_sequence_witness :
  get_encoding_from_coords mem_slice id (@rev N) (map complement_base)
    to_upper_full_latin mem_genome (py "chr1") 12 13 (py "sideways")
  = Ok (np_zeros 0 4).
Proof.
  destruct (get_encoding_is_encode_of_get_sequence
              (gmap str str) str mem_slice id (@rev N) (map complement_base)
              to_upper_full_latin mem_genome (py "chr1") 12 13
              (py "sideways")) as (_ & _ & Hout).
  destruct (Hout 12) as (_ & Henc & _).
  - apply lookup_singleton_eq.
  - unfold out_of_bounds. lia.
  - exact Henc.
Defined.

Example run_forward :
  get_sequence_from_coords mem_slice id (@rev N) (map complement_base)
    mem_genome (py "chr1") 2 6 (py "+") = Ok (py "GTTG").
Proof. vm_compute. reflexivity. Qed.

Example run_reverse :
  get_sequence_from_coords mem_slice id (@rev N) (map complement_base)
    mem_genome (py "chr1") 2 6 (py "-") = Ok (py "CAAC").
Proof. vm_compute. reflexivity. Qed.

Example run_out_of_bounds :
  get_sequence_from_coords mem_slice id (@rev N) (map complement_base)
    mem_genome (py "chr1") 12 13 (py "x") = Ok [].
Proof. vm_compute. reflexivity. Qed.

Example run_unknown_chromosome :
  get_sequence_from_coords mem_slice id (@rev N) (map complement_base)
    mem_genome (py "chr2") 12 13 (py "x") = Raise (KeyError (py "chr2")).
Proof. vm_compute. reflexivity. Qed.

Example run_invalid_strand :
  get_sequence_from_coords mem_slice id (@rev N) (map complement_base)
    mem_genome (py "chr1") 1 3 (py "x")
  = Raise (ValueError (py "Strand must be one of '+' or '-'. Input was x")).
Proof. vm_compute. reflexivity. Qed.

Example run_encoding :
  get_encoding_from_coords mem_slice id (@rev N) (map complement_base)
    to_upper_full_latin mem_genome (py "chr1") 7 9 (py "+")
  = Ok {| ncols := 4;
          rows := [[1; 0; 0; 0]; [0.25; 0.25; 0.25; 0.25]]%float |}.
Proof. vm_compute. reflexivity. Qed.

Example run_decode :
  _encoding_to_sequence
    {| ncols := 4;
       rows := [[0; 0; 1; 0]; [0.25; 0.25; 0.25; 0.25]; [1; 1; 0; 0];
                [0; 0; 0; 0]; [0; 0; 0; 1]]%float |}
    BASES_ARR = Ok (py "GNNNT").
Proof. vm_compute. reflexivity. Qed.

Example run_encode_lengthened :
  _sequence_to_encoding to_upper_full_latin (223%N :: py "A") BASES_DICT
  = Raise IndexError.
Proof. vm_compute. reflexivity. Qed.

(** ** Further properties of the encoder *)

(** X1: whatever the uppercase table is, an encoding the encoder returns
    has the shape (len(sequence), 4), every row has four entries, and every
    entry is 0, 1 or 0.25. *)
Theorem encoding_shape_and_entries (up : char -> list char) (s : str)
    (enc : ndarray) :
  _sequence_to_encoding up s BASES_DICT = Ok enc ->
  shape enc = (length s, 4%nat)
  /\ well_shaped enc
  /\ Forall (Forall (fun x => x = 0%float \/ x = 1%float \/ x = 0.25%float))
            (rows enc).
Proof.
  rewrite sequence_to_encoding_cases by apply BASES_DICT_cols_ok.
  case_decide as Hle; [|done]. intros [= <-].
  unfold shape, well_shaped. simpl. split; [|split].
  - rewrite length_app, length_map, length_replicate. f_equal. lia.
  - apply Forall_app. split.
    + apply Forall_map, Forall_forall. intros c _. simpl.
      rewrite encode_row_BASES. by repeat case_decide.
    + by apply Forall_replicate.
  - apply Forall_app. split.
    + apply Forall_map, Forall_forall. intros c _. simpl.
      rewrite encode_row_BASES.
      repeat case_decide; repeat (apply List.Forall_cons; [auto|]);
        apply List.Forall_nil.
    + apply Forall_replicate.
      repeat (apply List.Forall_cons; [auto|]). apply List.Forall_nil.
Qed.

Lemma encoding_shape_and_entries_witness :
  shape {| ncols := 4;
           rows := [[0; 0; 1; 0]; [0.25; 0.25; 0.25; 0.25]]%float |}
  = (2%nat, 4%nat).
Proof.
  destruct (encoding_shape_and_entries to_upper_full_latin (py "gn")
              {| ncols := 4;
                 rows := [[0; 0; 1; 0]; [0.25; 0.25; 0.25; 0.25]]%float |})
    as (Hshape & _).
  - vm_compute. reflexivity.
  - exact Hshape.
Defined.

(** X2: the encoder raises exactly when uppercasing makes the string
    longer, and then it raises IndexError. *)
Theorem encoder_raises_iff_lengthened (up : char -> list char) (s : str)
    (e : exn) :
  _sequence_to_encoding up s BASES_DICT = Raise e
  <-> e = IndexError /\ (length s < length (str_upper up s))%nat.
Proof.
  rewrite sequence_to_encoding_cases by apply BASES_DICT_cols_ok.
  case_decide as Hle; split.
  - done.
  - intros [_ ?]. lia.
  - intros [= <-]. split; [done|lia].
  - by intros [-> _].
Qed.

(** X3: when uppercasing keeps the length of the string, the encoder
    returns the array of shape (len(s), 4) in which A, C, G and T have
    the one-hot row of their index and every other symbol the row of
    four 0.25. *)
Theorem encoding_rows_when_length_kept (up : char -> list char) (s : str) :
  length (str_upper up s) = length s ->
  exists enc,
    _sequence_to_encoding up s BASES_DICT = Ok enc
    /\ shape enc = (length s, 4%nat)
    /\ forall i c, str_upper up s !! i = Some c ->
         rows enc !! i = Some
           (if decide (c = 65%N) then [1; 0; 0; 0]%float
            else if decide (c = 67%N) then [0; 1; 0; 0]%float
            else if decide (c = 71%N) then [0; 0; 1; 0]%float
            else if decide (c = 84%N) then [0; 0; 0; 1]%float
            else [0.25; 0.25; 0.25; 0.25]%float).
Proof. apply sequence_to_encoding_rows. Qed.

Lemma encoding_rows_when_length_kept_witness :
  exists enc,
    _sequence_to_encoding to_upper_full_latin (py "cX") BASES_DICT = Ok enc
    /\ shape enc = (2%nat, 4%nat).
Proof.
  destruct (encoding_rows_when_length_kept to_upper_full_latin (py "cX"))
    as (enc & Henc & Hshape & _); [reflexivity|].
  exists enc. split; [exact Henc|exact Hshape].
Defined.

(** ** Further properties of the decoder *)

Lemma elem_of_BASES_ARR (c : char) :
  c ∈ BASES_ARR <-> c = 65%N \/ c = 67%N \/ c = 71%N \/ c = 84%N.
Proof.
  rewrite list_elem_of_In. simpl. split.
  - intros [H|[H|[H|[H|H]]]]; [subst; auto..|destruct H].
  - intros [-> | [-> | [-> | ->]]]; auto 6.
Qed.

Lemma decode_row_collapse (c : char) :
  decode_row BASES_ARR (encode_row BASES_DICT c) = Ok (collapse_symbol c).
Proof.
  rewrite encode_row_BASES. unfold collapse_symbol.
  destruct (decide (c ∈ BASES_ARR)) as [Hin|Hout].
  - apply elem_of_BASES_ARR in Hin.
    destruct Hin as [-> | [-> | [-> | ->]]]; reflexivity.
  - rewrite elem_of_BASES_ARR in Hout.
    rewrite !decide_False by (intros ->; apply Hout; auto 6).
    reflexivity.
Qed.

Lemma decode_loop_collapse (u : str) (acc : str) :
  decode_loop BASES_ARR (map (encode_row BASES_DICT) u) acc
  = Ok (acc ++ map collapse_symbol u).
Proof.
  revert acc. induction u as [|c u IH]; intros acc; simpl.
  - by rewrite app_nil_r.
  - rewrite decode_row_collapse. simpl. by rewrite IH, <- app_assoc.
Qed.

Lemma encode_then_decode (up : char -> list char) (s : str) :
  length (str_upper up s) = length s ->
  exists enc,
    _sequence_to_encoding up s BASES_DICT = Ok enc
    /\ _encoding_to_sequence enc BASES_ARR
       = Ok (map collapse_symbol (str_upper up s)).
Proof.
  intros Hlen. eexists. split.
  - apply sequence_to_encoding_ok; [apply BASES_DICT_cols_ok|done].
  - unfold _encoding_to_sequence. simpl. apply decode_loop_collapse.
Qed.

(** X4: the decoder is a lossy inverse of the encoder. When uppercasing
    keeps the length of the string, decoding its encoding gives the
    uppercased string with every symbol other than A, C, G and T replaced
    by N. *)
Theorem decode_encode_collapses (up : char -> list char) (s : str) :
  length (str_upper up s) = length s ->
  exists enc,
    _sequence_to_encoding up s BASES_DICT = Ok enc
    /\ _encoding_to_sequence enc BASES_ARR
       = Ok (map collapse_symbol (str_upper up s)).
Proof. apply encode_then_decode. Qed.

Lemma decode_encode_collapses_witness :
  exists enc,
    _sequence_to_encoding to_upper_full_latin (py "aRn-t") BASES_DICT = Ok enc
    /\ _encoding_to_sequence enc BASES_ARR = Ok (py "ANNNT").
Proof.
  destruct (decode_encode_collapses to_upper_full_latin (py "aRn-t"))
    as (enc & Henc & Hdec); [reflexivity|].
  exists enc. split; [exact Henc|exact Hdec].
Defined.

Lemma sole_one_at_unique (row : list float) (j j' : nat) :
  sole_one_at row j -> sole_one_at row j' -> j = j'.
Proof. intros [(x & Hx & Hone) _] [_ Huniq]. by eapply Huniq. Qed.

Lemma decode_row_beyond (bases_arr : list char) (row : list float) :
  row_beyond bases_arr row -> decode_row bases_arr row = Raise IndexError.
Proof.
  intros (j & Hj & Hge). apply where_eq_one_sole in Hj.
  unfold decode_row. rewrite Hj. simpl.
  by rewrite lookup_ge_None_2 by lia.
Qed.

(** The three ways a row is decoded. *)
Lemma decode_row_cases (bases_arr : list char) (row : list float) :
  (exists j b, sole_one_at row j /\ bases_arr !! j = Some b
               /\ decode_row bases_arr row = Ok b)
  \/ (row_beyond bases_arr row /\ decode_row bases_arr row = Raise IndexError)
  \/ (~ (exists j, sole_one_at row j) /\ decode_row bases_arr row = Ok 78%N).
Proof.
  destruct (sole_one_at_dec row) as [(j & Hj)|Hno].
  - destruct (bases_arr !! j) as [b|] eqn:Hb.
    + left. exists j, b. split; [done|]. split; [done|].
      by eapply decode_row_sole.
    + right. left. apply lookup_ge_None in Hb.
      assert (row_beyond bases_arr row) as Hbeyond by (by exists j).
      split; [done|]. by apply decode_row_beyond.
  - right. right. split; [done|]. by apply decode_row_other.
Qed.

Lemma decode_row_raise (bases_arr : list char) (row : list float) (e : exn) :
  decode_row bases_arr row = Raise e
  <-> e = IndexError /\ row_beyond bases_arr row.
Proof.
  split.
  - intros He.
    destruct (decode_row_cases bases_arr row)
      as [(j & b & _ & _ & Hd)|[(Hbeyond & Hd)|(_ & Hd)]];
      rewrite Hd in He; try done.
    by injection He as <-.
  - intros [-> Hbeyond]. by apply decode_row_beyond.
Qed.

Lemma decode_loop_raise (bases_arr : list char) (rws : list (list float))
    (acc : str) (e : exn) :
  decode_loop bases_arr rws acc = Raise e
  <-> e = IndexError /\ Exists (row_beyond bases_arr) rws.
Proof.
  revert acc. induction rws as [|row rws IH]; intros acc; simpl.
  - split; [done|]. by intros [_ ?%Exists_nil].
  - rewrite Exists_cons.
    destruct (decode_row bases_arr row) as [b|e'] eqn:Hd; simpl.
    + rewrite IH. split.
      * intros [-> ?]. auto.
      * intros [-> [Hbeyond|?]]; [|done].
        apply decode_row_beyond in Hbeyond. congruence.
    + apply decode_row_raise in Hd as [-> Hbeyond]. split.
      * intros [= <-]. auto.
      * by intros [-> _].
Qed.

Lemma decode_loop_ok (bases_arr : list char) (rws : list (list float))
    (acc out : str) :
  decode_loop bases_arr rws acc = Ok out ->
  exists new,
    out = acc ++ new
    /\ Forall2 (fun r b => decode_row bases_arr r = Ok b) rws new.
Proof.
  revert acc. induction rws as [|row rws IH]; intros acc; simpl.
  - intros [= <-]. exists []. by rewrite app_nil_r.
  - destruct (decode_row bases_arr row) as [b|e'] eqn:Hd; simpl; [|done].
    intros (new & -> & Hall)%IH. exists (b :: new).
    rewrite <- app_assoc. split; [done|by constructor].
Qed.

Lemma decode_loop_acc (bases_arr : list char) (rws : list (list float))
    (acc : str) :
  decode_loop bases_arr rws acc
  = (decode_loop bases_arr rws [] ≫= fun out : str => Ok (acc ++ out)).
Proof.
  destruct (decode_loop bases_arr rws []) as [out|e] eqn:Hnil; simpl.
  - apply decode_loop_ok in Hnil as (new & -> & Hall). simpl.
    revert acc. induction Hall as [|row b rws new Hd _ IH]; intros acc; simpl.
    + by rewrite app_nil_r.
    + rewrite Hd. simpl. rewrite IH. by rewrite <- app_assoc.
  - apply decode_loop_raise in Hnil as [-> Hex].
    by apply decode_loop_raise.
Qed.

Lemma decode_loop_app (bases_arr : list char) (r1 r2 : list (list float))
    (acc : str) :
  decode_loop bases_arr (r1 ++ r2) acc
  = (decode_loop bases_arr r1 acc ≫= decode_loop bases_arr r2).
Proof.
  revert acc. induction r1 as [|row r1 IH]; intros acc; simpl; [done|].
  destruct (decode_row bases_arr row) as [b|e]; simpl; [apply IH|done].
Qed.

(** X5: for any array and any alphabet, a string the decoder returns has
    one symbol per row: the entry of the alphabet at column [j] when [j]
    is the only column of the row equal to 1, and N when no column or
    several columns of the row equal 1. *)
Theorem decoder_result_rows (enc : ndarray) (bases_arr : list char) (s : str) :
  _encoding_to_sequence enc bases_arr = Ok s ->
  length s = length (rows enc)
  /\ forall i row, rows enc !! i = Some row ->
       exists b, s !! i = Some b
         /\ ((exists j, sole_one_at row j /\ bases_arr !! j = Some b)
             \/ (~ (exists j, sole_one_at row j) /\ b = 78%N)).
Proof.
  intros (new & -> & Hall)%decode_loop_ok. simpl. split.
  { symmetry. by eapply Forall2_length. }
  intros i row Hrow.
  destruct (Forall2_lookup_l _ _ _ _ _ Hall Hrow) as (b & Hb & Hdec).
  exists b. split; [done|].
  destruct (decode_row_cases bases_arr row)
    as [(j & b' & Hj & Hb' & Hd)|[(_ & Hd)|(Hno & Hd)]];
    rewrite Hd in Hdec; try done; injection Hdec as <-.
  - left. by exists j.
  - by right.
Qed.

Lemma decoder_result_rows_witness :
  length (py "GNNT")
  = length [[0; 0; 1; 0]; [0.5; 0.5; 0; 0]; [1; 0; 0; 1]; [0; 0; 0; 1]]%float.
Proof.
  destruct (decoder_result_rows
    {| ncols := 4;
       rows := [[0; 0; 1; 0]; [0.5; 0.5; 0; 0]; [1; 0; 0; 1];
                [0; 0; 0; 1]]%float |}
    BASES_ARR (py "GNNT")) as [Hlen _].
  - vm_compute. reflexivity.
  - exact Hlen.
Defined.

(** X6: the decoder raises exactly when some row has its only 1 in a
    column the alphabet does not have, and then it raises IndexError. *)
Theorem decoder_raises_iff_row_beyond (enc : ndarray) (bases_arr : list char)
    (e : exn) :
  _encoding_to_sequence enc bases_arr = Raise e
  <-> e = IndexError /\ Exists (row_beyond bases_arr) (rows enc).
Proof. apply decode_loop_raise. Qed.

(** X7: decoding goes row by row: the decoding of an array made of the
    rows of one array followed by the rows of another is the decoding of
    the first followed by the decoding of the second, and it raises when
    one of them does. *)
Theorem decoder_of_stacked_rows (n : nat) (r1 r2 : list (list float))
    (bases_arr : list char) :
  _encoding_to_sequence {| ncols := n; rows := r1 ++ r2 |} bases_arr
  = (_encoding_to_sequence {| ncols := n; rows := r1 |} bases_arr
     ≫= fun s1 : str =>
     _encoding_to_sequence {| ncols := n; rows := r2 |} bases_arr
     ≫= fun s2 : str => Ok (s1 ++ s2)).
Proof.
  unfold _encoding_to_sequence. simpl. rewrite decode_loop_app.
  destruct (decode_loop bases_arr r1 []) as [s1|e]; simpl; [|done].
  apply decode_loop_acc.
Qed.

Lemma decoded_symbol_plain (row : list float) (b : char) :
  decode_row BASES_ARR row = Ok b ->
  (b < 128)%N /\ ascii_upper b = b /\ collapse_symbol b = b.
Proof.
  intros Hd.
  assert (b ∈ BASES_ARR \/ b = 78%N) as Hb.
  { destruct (decode_row_cases BASES_ARR row)
      as [(j & b' & _ & Hb' & Hd')|[(_ & Hd')|(_ & Hd')]];
      rewrite Hd' in Hd; try done; injection Hd as <-; [left|by right].
    by eapply list_elem_of_lookup_2. }
  rewrite elem_of_BASES_ARR in Hb.
  destruct Hb as [[-> | [-> | [-> | ->]]] | ->]; done.
Qed.

(** X8: decoding is stable under re-encoding. A string the decoder
    returned is encoded without error, and decoding that encoding gives
    the same string again. *)
Theorem decode_encode_decode (up : char -> list char) (enc : ndarray) (s : str) :
  upper_basic_latin up ->
  _encoding_to_sequence enc BASES_ARR = Ok s ->
  exists enc',
    _sequence_to_encoding up s BASES_DICT = Ok enc'
    /\ _encoding_to_sequence enc' BASES_ARR = Ok s.
Proof.
  intros Hup (new & -> & Hall)%decode_loop_ok. simpl.
  assert (Forall (fun b => (b < 128)%N /\ ascii_upper b = b
                           /\ collapse_symbol b = b) new) as Hplain.
  { clear -Hall. induction Hall as [|row b rws new Hd _ IH]; constructor;
      [by eapply decoded_symbol_plain|done]. }
  assert (str_upper up new = new) as Hupper.
  { rewrite (str_upper_basic_latin up new Hup)
      by (eapply Forall_impl; [exact Hplain|]; by intros b (? & _)).
    clear -Hplain. induction Hplain as [|b new (_ & Hb & _) _ IH]; simpl;
      [done|by rewrite Hb, IH]. }
  destruct (encode_then_decode up new) as (enc' & Henc & Hdec).
  { by rewrite Hupper. }
  exists enc'. split; [done|]. rewrite Hdec, Hupper. f_equal.
  clear -Hplain. induction Hplain as [|b new (_ & _ & Hb) _ IH]; simpl;
    [done|by rewrite Hb, IH].
Qed.

Lemma decode_encode_decode_witness :
  exists enc',
    _sequence_to_encoding to_upper_full_latin (py "GNNT") BASES_DICT = Ok enc'
    /\ _encoding_to_sequence enc' BASES_ARR = Ok (py "GNNT").
Proof.
  apply (decode_encode_decode to_upper_full_latin
    {| ncols := 4;
       rows := [[0; 0; 1; 0]; [0.5; 0.5; 0; 0]; [1; 0; 0; 1];
                [0; 0; 0; 1]]%float |}).
  - exact to_upper_full_latin_basic.
  - vm_compute. reflexivity.
Defined.

(** ** The alphabet and its index *)

Lemma dict_enumerate_from (arr : list char) :
  NoDup arr ->
  forall (k : nat) (m : gmap char nat) (c : char),
    (forall i, arr !! i = Some c ->
       fold_left (fun m kv => <[kv.1 := kv.2]> m)
         (map (fun ib : nat * char => (ib.2, ib.1)) (enumerate_from k arr)) m
       !! c = Some (k + i)%nat)
    /\ (c ∉ arr ->
        fold_left (fun m kv => <[kv.1 := kv.2]> m)
          (map (fun ib : nat * char => (ib.2, ib.1)) (enumerate_from k arr)) m
        !! c = m !! c).
Proof.
  induction 1 as [|x arr Hx _ IH]; intros k m c; simpl.
  - split; [by intros i ?|done].
  - destruct (IH (S k) (<[x := k]> m) c) as [IHin IHout]. split.
    + intros [|i] Hi; simpl in Hi.
      * injection Hi as ->. rewrite IHout by done.
        by rewrite lookup_insert_eq, Nat.add_0_r.
      * rewrite (IHin i Hi). f_equal. lia.
    + intros Hc. apply not_elem_of_cons in Hc as [Hne Hc].
      rewrite IHout by done. by rewrite lookup_insert_ne.
Qed.

(** X9: a dictionary built from the enumeration of an array without
    repeated entries is the inverse of the array: it sends a symbol to
    [i] exactly when the array holds that symbol at index [i]. So the
    column the encoder writes for a symbol is the column the decoder
    reads it back from. *)
Theorem dict_of_enumerate_inverts (arr : list char) (c : char) (i : nat) :
  NoDup arr ->
  dict (map (fun ib : nat * char => (ib.2, ib.1)) (enumerate arr)) !! c = Some i
  <-> arr !! i = Some c.
Proof.
  intros Hnd. unfold dict, enumerate.
  destruct (dict_enumerate_from arr Hnd 0 ∅ c) as [Hin Hout]. split.
  - intros Hc. destruct (decide (c ∈ arr)) as [Hel|Hnel].
    + apply list_elem_of_lookup in Hel as [i' Hi'].
      rewrite (Hin i' Hi') in Hc. simpl in Hc. by injection Hc as <-.
    + rewrite (Hout Hnel) in Hc. done.
  - intros Hi. by rewrite (Hin i Hi).
Qed.

Lemma dict_of_enumerate_inverts_witness :
  BASES_DICT !! 71%N = Some 2%nat <-> BASES_ARR !! 2%nat = Some 71%N.
Proof.
  apply (dict_of_enumerate_inverts BASES_ARR 71%N 2).
  apply NoDup_ListNoDup. repeat constructor; simpl; intuition discriminate.
Defined.

(** ** Further properties of the [Genome] class *)

Lemma encode_row_complement (c : char) :
  c ∈ BASES_ARR ->
  complement_base c ∈ BASES_ARR
  /\ encode_row BASES_DICT (complement_base c) = rev (encode_row BASES_DICT c).
Proof.
  intros Hc. apply elem_of_BASES_ARR in Hc.
  destruct Hc as [-> | [-> | [-> | ->]]];
    (split; [apply elem_of_BASES_ARR; vm_compute; auto 6|reflexivity]).
Qed.

Lemma str_upper_bases (up : char -> list char) (u : str) :
  upper_basic_latin up ->
  Forall (fun c => c ∈ BASES_ARR) u ->
  str_upper up u = u.
Proof.
  intros Hup Hu.
  rewrite (str_upper_basic_latin up u Hup).
  - induction Hu as [|c u Hc _ IH]; simpl; [done|]. rewrite IH. f_equal.
    apply elem_of_BASES_ARR in Hc. by destruct Hc as [-> | [-> | [-> | ->]]].
  - eapply Forall_impl; [exact Hu|]. intros c Hc.
    apply elem_of_BASES_ARR in Hc. by destruct Hc as [-> | [-> | [-> | ->]]].
Qed.

Section GenomeMore.

Variable Fasta : Type.
Variable Sequence : Type.
Variable fasta_slice : Fasta -> str -> Z -> Z -> result Sequence.
Variable seq_of : Sequence -> str.
Variable seq_reverse : Sequence -> Sequence.
Variable seq_complement : Sequence -> Sequence.
Variable to_upper_full : char -> list char.
Variable complement_table : char -> char.
Hypothesis seq_reverse_seq :
  forall x, seq_of (seq_reverse x) = rev (seq_of x).
Hypothesis seq_complement_seq :
  forall x, seq_of (seq_complement x) = map complement_table (seq_of x).
Hypothesis complement_table_bases : pairs_bases complement_table.

#[local] Abbreviation get_sequence :=
  (get_sequence_from_coords fasta_slice seq_of seq_reverse seq_complement).
#[local] Abbreviation get_encoding :=
  (get_encoding_from_coords
     fasta_slice seq_of seq_reverse seq_complement to_upper_full).

Lemma get_encoding_unfold (self : Genome Fasta)
    (chrom : str) (start end_ : Z) (strand : str) :
  get_encoding self chrom start end_ strand
  = (get_sequence self chrom start end_ strand
     ≫= fun sequence : str =>
     _sequence_to_encoding to_upper_full sequence BASES_DICT).
Proof.
  unfold get_encoding_from_coords, sequence_to_encoding.
  destruct (get_sequence_from_coords _ _ _ _ _ _ _ _ _) as [sequence|e];
    [|done].
  cbn [mbind result_bind]. by destruct (_sequence_to_encoding _ _ _).
Qed.

Lemma get_sequence_reverse_strand (self : Genome Fasta)
    (chrom : str) (L i j : Z) :
  len_chrs self !! chrom = Some L ->
  ~ out_of_bounds L i j ->
  get_sequence self chrom i j (py "-")
  = (get_sequence self chrom i j (py "+")
     ≫= fun fwd : str => Ok (rev (map complement_table fwd))).
Proof using seq_reverse_seq seq_complement_seq.
  intros HL Hin. unfold get_sequence_from_coords.
  rewrite !(get_sequence_in_bounds _ _ _ L) by done.
  rewrite (decide_False (P := py "-" = py "+")) by discriminate.
  rewrite !decide_True by done.
  unfold _genome_sequence.
  rewrite (decide_False (P := py "-" = py "+")) by discriminate.
  rewrite decide_True by done.
  destruct (fasta_slice (genome self) chrom i j) as [x|e]; [|done].
  cbn [mbind result_bind].
  by rewrite seq_complement_seq, seq_reverse_seq, map_rev.
Qed.

(** X10: for a chromosome of the table, an interval that passes the
    bounds test and a forward sequence made of A, C, G and T, the
    encoding of the reverse strand is the encoding of the forward strand
    with its rows in reverse order and every row reversed. *)
Theorem reverse_strand_encoding_is_flipped (self : Genome Fasta)
    (chrom : str) (L i j : Z) (fwd : str) :
  upper_basic_latin to_upper_full ->
  len_chrs self !! chrom = Some L ->
  ~ out_of_bounds L i j ->
  get_sequence self chrom i j (py "+") = Ok fwd ->
  Forall (fun c => c ∈ BASES_ARR) fwd ->
  exists enc,
    get_encoding self chrom i j (py "+") = Ok enc
    /\ get_encoding self chrom i j (py "-") = Ok (np_flip enc).
Proof using seq_reverse_seq seq_complement_seq complement_table_bases.
  intros Hup HL Hin Hfwd Hbases.
  assert (Forall (fun c => c ∈ BASES_ARR) (rev (map complement_table fwd)))
    as Hrc.
  { apply Forall_forall. intros c Hc.
    apply list_elem_of_In, in_rev, list_elem_of_In in Hc.
    apply list_elem_of_fmap in Hc as (b & -> & Hb).
    rewrite Forall_forall in Hbases.
    rewrite (complement_table_bases b) by auto.
    by apply encode_row_complement, Hbases. }
  exists {| ncols := 4; rows := map (encode_row BASES_DICT) fwd |}. split.
  - rewrite get_encoding_unfold, Hfwd. cbn [mbind result_bind].
    rewrite sequence_to_encoding_ok; [|apply BASES_DICT_cols_ok|];
      by rewrite str_upper_bases.
  - rewrite get_encoding_unfold, (get_sequence_reverse_strand _ _ L), Hfwd
      by done.
    cbn [mbind result_bind].
    rewrite sequence_to_encoding_ok; [|apply BASES_DICT_cols_ok|];
      rewrite str_upper_bases by done; [|done].
    unfold np_flip. simpl. do 2 f_equal.
    rewrite map_rev. f_equal. rewrite !map_map.
    apply map_ext_Forall. eapply Forall_impl; [exact Hbases|].
    intros c Hc. simpl. rewrite (complement_table_bases c Hc).
    by apply encode_row_complement.
Qed.

(** X11: the encoding lookup fails as the sequence lookup does: KeyError
    on a chromosome that is not in the length table, and, for a
    chromosome of the table and an interval that passes the bounds test,
    ValueError on a strand that is neither '+' nor '-'. *)
Theorem get_encoding_errors (self : Genome Fasta)
    (chrom : str) (start end_ : Z) (strand : str) :
  (len_chrs self !! chrom = None ->
   get_encoding self chrom start end_ strand = Raise (KeyError chrom))
  /\ (forall L,
        len_chrs self !! chrom = Some L ->
        ~ out_of_bounds L start end_ ->
        strand <> py "+" -> strand <> py "-" ->
        get_encoding self chrom start end_ strand
        = Raise (ValueError (strand_error_message strand))).
Proof.
  split.
  - intros HL. rewrite get_encoding_unfold. unfold get_sequence_from_coords.
    by rewrite get_sequence_unknown.
  - intros L HL Hin Hplus Hminus. rewrite get_encoding_unfold.
    unfold get_sequence_from_coords.
    rewrite (get_sequence_in_bounds _ _ _ L) by done.
    by rewrite !decide_False by done.
Qed.

End GenomeMore.

Lemma reverse_strand_encoding_is_flipped_witness :
  exists enc,
    get_encoding_from_coords mem_slice id (@rev N) (map complement_base)
      to_upper_full_latin mem_genome (py "chr1") 2 6 (py "+") = Ok enc
    /\ get_encoding_from_coords mem_slice id (@rev N) (map complement_base)
         to_upper_full_latin mem_genome (py "chr1") 2 6 (py "-")
       = Ok (np_flip enc).
Proof.
  apply (reverse_strand_encoding_is_flipped
           (gmap str str) str mem_slice id (@rev N) (map complement_base)
           to_upper_full_latin complement_base
           (fun _ => eq_refl) (fun _ => eq_refl) (fun _ _ => eq_refl)
           mem_genome (py "chr1") 12 2 6 (py "GTTG")).
  - exact to_upper_full_latin_basic.
  - apply lookup_singleton_eq.
  - unfold out_of_bounds. lia.
  - vm_compute. reflexivity.
  - repeat constructor.
Defined.

Lemma get_encoding_errors_witness :
  get_encoding_from_coords mem_slice id (@rev N) (map complement_base)
    to_upper_full_latin mem_genome (py "chrM") 0 4 (py "+")
  = Raise (KeyError (py "chrM")).
Proof.
  destruct (get_encoding_errors
              (gmap str str) str mem_slice id (@rev N) (map complement_base)
              to_upper_full_latin mem_genome (py "chrM") 0 4 (py "+"))
    as [Hkey _].
  apply Hkey. apply lookup_singleton_ne. discriminate.
Defined.

(** ** Construction: the order of names and the length table *)

Lemma str_leb_total (a b : str) : str_leb a b = true \/ str_leb b a = true.
Proof.
  revert b. induction a as [|x a IH]; intros [|y b]; simpl; auto.
  destruct (N.ltb_spec x y), (N.ltb_spec y x); auto; lia.
Qed.

Lemma str_leb_trans (a b c : str) :
  str_leb a b = true -> str_leb b c = true -> str_leb a c = true.
Proof.
  revert b c. induction a as [|x a IH]; intros [|y b] [|z c]; simpl; try done.
  destruct (N.ltb_spec x y), (N.ltb_spec y x), (N.ltb_spec y z),
    (N.ltb_spec z y), (N.ltb_spec x z), (N.ltb_spec z x);
    try done; try lia.
  apply IH.
Qed.

Lemma str_leb_antisym (a b : str) :
  str_leb a b = true -> str_leb b a = true -> a = b.
Proof.
  revert b. induction a as [|x a IH]; intros [|y b]; simpl; try done.
  destruct (N.ltb_spec x y), (N.ltb_spec y x); try done; try lia.
  intros Hab Hba. f_equal; [lia|by apply IH].
Qed.

#[global] Instance str_le_total : Total str_le.
Proof. intros a b. apply str_leb_total. Qed.

#[global] Instance str_le_trans : Transitive str_le.
Proof. intros a b c. apply str_leb_trans. Qed.

#[global] Instance str_le_antisym : AntiSymm (=) str_le.
Proof. intros a b. apply str_leb_antisym. Qed.

Lemma sorted_Permutation (names : list str) : sorted names ≡ₚ names.
Proof. apply merge_sort_Permutation. Qed.

Lemma sorted_StronglySorted (names : list str) :
  StronglySorted str_le (sorted names).
Proof. apply StronglySorted_merge_sort; apply _. Qed.

(** [sorted] returns the one arrangement of the names that is in
    ascending order: it is a rearrangement of its argument, every name
    is below all the names after it, and any other ascending
    rearrangement of the argument is the same list. *)
Lemma sorted_is_the_ascending_rearrangement (names : list str) :
  sorted names ≡ₚ names
  /\ StronglySorted str_le (sorted names)
  /\ forall l, l ≡ₚ names -> Sorted str_le l -> l = sorted names.
Proof.
  split; [apply sorted_Permutation|].
  split; [apply sorted_StronglySorted|].
  intros l Hperm Hsorted.
  apply (Sorted_unique str_le); [done|apply Sorted_merge_sort, _|].
  by rewrite Hperm, sorted_Permutation.
Qed.

Section InitFacts.

Variable Fasta : Type.
Variable fasta_open : str -> result Fasta.
Variable fasta_keys : Fasta -> list str.
Variable fasta_len : Fasta -> str -> result Z.

Lemma get_len_chrs_loop_ok (genome : Fasta) (chrs : list str) :
  forall (m t : gmap str Z),
    get_len_chrs_loop fasta_len genome chrs m = Ok t ->
    forall chrom,
      (chrom ∈ chrs ->
       exists L, fasta_len genome chrom = Ok L /\ t !! chrom = Some L)
      /\ (chrom ∉ chrs -> t !! chrom = m !! chrom).
Proof.
  induction chrs as [|x chrs IH]; intros m t; simpl.
  - intros [= <-] chrom. split; [by intros ?%elem_of_nil|done].
  - destruct (fasta_len genome x) as [n|e] eqn:Hn; simpl; [|done].
    intros Ht chrom. destruct (IH _ _ Ht chrom) as [IHin IHout]. split.
    + intros Hin. destruct (decide (chrom ∈ chrs)) as [Hel|Hnel]; [auto|].
      apply elem_of_cons in Hin as [->|?]; [|done].
      exists n. split; [done|]. by rewrite IHout, lookup_insert_eq.
    + intros Hnot. apply not_elem_of_cons in Hnot as [Hne Hnot].
      by rewrite IHout, lookup_insert_ne.
Qed.

Lemma get_len_chrs_loop_raise (genome : Fasta) (chrs : list str) :
  forall (m : gmap str Z) (e : exn),
    get_len_chrs_loop fasta_len genome chrs m = Raise e ->
    exists chrom, chrom ∈ chrs /\ fasta_len genome chrom = Raise e.
Proof.
  induction chrs as [|x chrs IH]; intros m e; simpl; [done|].
  destruct (fasta_len genome x) as [n|e'] eqn:Hn; simpl.
  - intros (chrom & ? & ?)%IH. exists chrom. split; [by right|done].
  - intros [= <-]. exists x. split; [left|done].
Qed.

Lemma get_len_chrs_lookup (genome : Fasta) (chrs : list str)
    (t : gmap str Z) :
  _get_len_chrs fasta_len genome chrs = Ok t ->
  forall chrom L,
    t !! chrom = Some L
    <-> chrom ∈ chrs /\ fasta_len genome chrom = Ok L.
Proof.
  intros Ht chrom L.
  destruct (get_len_chrs_loop_ok genome chrs ∅ t Ht chrom) as [Hin Hout].
  split.
  - intros HL. destruct (decide (chrom ∈ chrs)) as [Hel|Hnel].
    + destruct (Hin Hel) as (L' & Hlen & HL'). split; [done|congruence].
    + rewrite (Hout Hnel) in HL. done.
  - intros [Hel Hlen]. destruct (Hin Hel) as (L' & Hlen' & HL'). congruence.
Qed.

(** X12: the table [_get_len_chrs] returns holds exactly the names it
    went through, each with the length the reader reports for it. *)
Theorem get_len_chrs_table (genome : Fasta) (chrs : list str)
    (t : gmap str Z) :
  _get_len_chrs fasta_len genome chrs = Ok t ->
  forall chrom L,
    t !! chrom = Some L
    <-> chrom ∈ chrs /\ fasta_len genome chrom = Ok L.
Proof. apply get_len_chrs_lookup. Qed.

(** X13: [_get_len_chrs] returns a table exactly when the reader gives a
    length for every name, and an exception it raises is one the reader
    raised for one of the names. *)
Theorem get_len_chrs_succeeds_iff (genome : Fasta) (chrs : list str) :
  ((exists t, _get_len_chrs fasta_len genome chrs = Ok t)
   <-> Forall (fun chrom => exists L, fasta_len genome chrom = Ok L) chrs)
  /\ forall e,
       _get_len_chrs fasta_len genome chrs = Raise e ->
       exists chrom, chrom ∈ chrs /\ fasta_len genome chrom = Raise e.
Proof.
  split; [|intros e; apply get_len_chrs_loop_raise].
  split.
  - intros [t Ht]. apply Forall_forall. intros chrom Hel.
    destruct (get_len_chrs_loop_ok genome chrs ∅ t Ht chrom) as [Hin _].
    destruct (Hin Hel) as (L & ? & _). by exists L.
  - intros Hall.
    destruct (_get_len_chrs fasta_len genome chrs) as [t|e] eqn:Ht;
      [by exists t|].
    apply get_len_chrs_loop_raise in Ht as (chrom & Hel & He).
    rewrite Forall_forall in Hall. destruct (Hall chrom Hel) as [L HL].
    congruence.
Qed.

Lemma init_inv (fa_file : str) (self : Genome Fasta) :
  __init__ fasta_open fasta_keys fasta_len fa_file = Ok self ->
  fasta_open fa_file = Ok (genome self)
  /\ chrs self ≡ₚ fasta_keys (genome self)
  /\ StronglySorted str_le (chrs self)
  /\ forall chrom L,
       len_chrs self !! chrom = Some L
       <-> chrom ∈ fasta_keys (genome self)
           /\ fasta_len (genome self) chrom = Ok L.
Proof.
  unfold __init__.
  destruct (fasta_open fa_file) as [g|e]; simpl; [|done].
  destruct (_get_len_chrs fasta_len g (sorted (fasta_keys g))) as [t|e] eqn:Ht;
    simpl; [|done].
  intros [= <-]. simpl.
  pose proof (sorted_Permutation (fasta_keys g)) as Hperm.
  split; [done|]. split; [done|]. split; [apply sorted_StronglySorted|].
  intros chrom L. rewrite (get_len_chrs_lookup g _ t Ht chrom L).
  by rewrite Hperm.
Qed.

(** X14: a [Genome] that [__init__] returns holds the file that was
    opened, the names of its records in ascending order, and a length
    table with exactly those names, each with the length of its record. *)
Theorem init_attributes (fa_file : str) (self : Genome Fasta) :
  __init__ fasta_open fasta_keys fasta_len fa_file = Ok self ->
  fasta_open fa_file = Ok (genome self)
  /\ chrs self ≡ₚ fasta_keys (genome self)
  /\ StronglySorted str_le (chrs self)
  /\ forall chrom L,
       len_chrs self !! chrom = Some L
       <-> chrom ∈ fasta_keys (genome self)
           /\ fasta_len (genome self) chrom = Ok L.
Proof. apply init_inv. Qed.

(** X15: [__init__] raises what opening the file raises, and otherwise
    what the reader raises for the length of one of the records. *)
Theorem init_raises (fa_file : str) (e : exn) :
  __init__ fasta_open fasta_keys fasta_len fa_file = Raise e ->
  fasta_open fa_file = Raise e
  \/ exists g chrom,
       fasta_open fa_file = Ok g
       /\ chrom ∈ fasta_keys g
       /\ fasta_len g chrom = Raise e.
Proof.
  unfold __init__.
  destruct (fasta_open fa_file) as [g|e']; simpl; [|intros [= <-]; by left].
  destruct (_get_len_chrs fasta_len g (sorted (fasta_keys g))) as [t|e'] eqn:Ht;
    simpl; [done|].
  intros [= <-]. right.
  apply get_len_chrs_loop_raise in Ht as (chrom & Hel & He).
  exists g, chrom. split; [done|]. split; [|done].
  by rewrite <- (sorted_Permutation (fasta_keys g)).
Qed.

End InitFacts.

Section ConstructedGenome.

Variable Fasta : Type.
Variable fasta_open : str -> result Fasta.
Variable fasta_keys : Fasta -> list str.
Variable fasta_len : Fasta -> str -> result Z.
Variable Sequence : Type.
Variable fasta_slice : Fasta -> str -> Z -> Z -> result Sequence.
Variable seq_of : Sequence -> str.
Variable seq_reverse : Sequence -> Sequence.
Variable seq_complement : Sequence -> Sequence.

#[local] Abbreviation get_sequence :=
  (get_sequence_from_coords fasta_slice seq_of seq_reverse seq_complement).

Lemma init_key_has_length (fa_file : str) (self : Genome Fasta) (chrom : str) :
  __init__ fasta_open fasta_keys fasta_len fa_file = Ok self ->
  chrom ∈ fasta_keys (genome self) ->
  exists L,
    fasta_len (genome self) chrom = Ok L /\ len_chrs self !! chrom = Some L.
Proof.
  unfold __init__.
  destruct (fasta_open fa_file) as [g|e]; simpl; [|done].
  destruct (_get_len_chrs fasta_len g (sorted (fasta_keys g))) as [t|e] eqn:Ht;
    simpl; [|done].
  intros [= <-] Hel. simpl in *.
  destruct (get_len_chrs_loop_ok Fasta fasta_len g _ ∅ t Ht chrom) as [Hin _].
  apply Hin. by rewrite sorted_Permutation.
Qed.

(** X16: on a [Genome] that [__init__] returned, the sequence lookup
    raises KeyError for a name that is not a record of the file; for a
    record of the file, of length [L], an interval that fails the bounds
    test against [L] gives the empty string, and one that passes it on the
    forward strand gives what [_genome_sequence] returns. *)
Theorem constructed_genome_lookup (fa_file : str) (self : Genome Fasta)
    (chrom : str) (start end_ : Z) (strand : str) :
  __init__ fasta_open fasta_keys fasta_len fa_file = Ok self ->
  (chrom ∉ fasta_keys (genome self) ->
   get_sequence self chrom start end_ strand = Raise (KeyError chrom))
  /\ (chrom ∈ fasta_keys (genome self) ->
      exists L,
        fasta_len (genome self) chrom = Ok L
        /\ (out_of_bounds L start end_ ->
            get_sequence self chrom start end_ strand = Ok [])
        /\ (~ out_of_bounds L start end_ ->
            get_sequence self chrom start end_ (py "+")
            = _genome_sequence fasta_slice seq_of seq_reverse seq_complement
                self chrom start end_ (py "+"))).
Proof.
  intros Hinit. split.
  - intros Hnot. unfold get_sequence_from_coords.
    apply get_sequence_unknown.
    apply init_inv in Hinit as (_ & _ & _ & Htable).
    destruct (len_chrs self !! chrom) as [L|] eqn:HL; [|done].
    apply Htable in HL as [? _]. done.
  - intros Hel.
    destruct (init_key_has_length fa_file self chrom Hinit Hel)
      as (L & Hlen & HL).
    exists L. split; [done|]. unfold get_sequence_from_coords. split.
    + intros Hout. by apply (get_sequence_out_of_bounds _ _ _ L).
    + intros Hin. by rewrite (get_sequence_in_bounds _ _ _ L) by done.
Qed.

End ConstructedGenome.

(** ** Runs of the construction on the in-memory reader *)

Example run_sorted :
  sorted [py "chr2"; py "chr10"; py "chr1"; py "chrX"]
  = [py "chr1"; py "chr10"; py "chr2"; py "chrX"].
Proof. vm_compute. reflexivity. Qed.

Example run_init :
  __init__ (mem_open mem_files) mem_keys mem_len (py "toy.fa")
  = Ok (mk_Genome
          {[ py "chr2" := py "TTGACA"; py "chr10" := py "ACGTN" ]}
          [py "chr10"; py "chr2"]
          {[ py "chr10" := 5; py "chr2" := 6 ]}).
Proof. vm_compute. reflexivity. Qed.

Example run_init_missing_file :
  __init__ (mem_open mem_files) mem_keys mem_len (py "none.fa")
  = Raise (KeyError (py "none.fa")).
Proof. vm_compute. reflexivity. Qed.

Lemma get_len_chrs_table_witness :
  ({[ py "chr2" := 6 ]} : gmap str Z) !! py "chr2" = Some 6
  <-> py "chr2" ∈ [py "chr2"]
      /\ mem_len {[ py "chr2" := py "TTGACA" ]} (py "chr2") = Ok 6.
Proof.
  apply (get_len_chrs_table (gmap str str) mem_len
           {[ py "chr2" := py "TTGACA" ]} [py "chr2"]).
  vm_compute. reflexivity.
Defined.

Lemma init_attributes_witness :
  StronglySorted str_le [py "chr10"; py "chr2"].
Proof.
  destruct (init_attributes (gmap str str) (mem_open mem_files) mem_keys
              mem_len (py "toy.fa")
              (mk_Genome
                 {[ py "chr2" := py "TTGACA"; py "chr10" := py "ACGTN" ]}
                 [py "chr10"; py "chr2"]
                 {[ py "chr10" := 5; py "chr2" := 6 ]}))
    as (_ & _ & Hsorted & _).
  - vm_compute. reflexivity.
  - exact Hsorted.
Defined.

Lemma init_raises_witness :
  mem_open mem_files (py "none.fa") = Raise (KeyError (py "none.fa"))
  \/ exists g chrom,
       mem_open mem_files (py "none.fa") = Ok g
       /\ chrom ∈ mem_keys g
       /\ mem_len g chrom = Raise (KeyError (py "none.fa")).
Proof.
  apply (init_raises (gmap str str) (mem_open mem_files) mem_keys mem_len
           (py "none.fa") (KeyError (py "none.fa"))).
  vm_compute. reflexivity.
Defined.

Lemma constructed_genome_lookup_witness :
  get_sequence_from_coords mem_slice id (@rev N) (map complement_base)
    (mk_Genome
       {[ py "chr2" := py "TTGACA"; py "chr10" := py "ACGTN" ]}
       [py "chr10"; py "chr2"]
       {[ py "chr10" := 5; py "chr2" := 6 ]})
    (py "chr3") 0 4 (py "+")
  = Raise (KeyError (py "chr3")).
Proof.
  destruct (constructed_genome_lookup (gmap str str) (mem_open mem_files)
              mem_keys mem_len str mem_slice id (@rev N)
              (map complement_base) (py "toy.fa")
              (mk_Genome
                 {[ py "chr2" := py "TTGACA"; py "chr10" := py "ACGTN" ]}
                 [py "chr10"; py "chr2"]
                 {[ py "chr10" := 5; py "chr2" := 6 ]})
              (py "chr3") 0 4 (py "+")) as [Hnot _].
  - vm_compute. reflexivity.
  - apply Hnot. vm_compute. intros Hel.
    apply list_elem_of_In in Hel. simpl in Hel.
    destruct Hel as [H|[H|H]]; [discriminate H|discriminate H|destruct H].
Defined.

(** ** The encoder on cased and concatenated strings *)

Lemma ascii_upper_idemp (c : char) : ascii_upper (ascii_upper c) = ascii_upper c.
Proof.
  unfold ascii_upper.
  destruct ((97 <=? c) && (c <=? 122))%N eqn:E; [|by rewrite E].
  apply andb_true_iff in E as [Hlo%N.leb_le Hhi%N.leb_le].
  replace ((97 <=? c - 32) && (c - 32 <=? 122))%N with false; [done|].
  symmetry. apply andb_false_iff. left. apply N.leb_gt. lia.
Qed.

Lemma ascii_upper_lt (c : char) : (c < 128)%N -> (ascii_upper c < 128)%N.
Proof. unfold ascii_upper. destruct ((97 <=? c) && (c <=? 122))%N; lia. Qed.

Lemma encode_row_collapse (c : char) :
  encode_row BASES_DICT (collapse_symbol c) = encode_row BASES_DICT c.
Proof.
  unfold collapse_symbol. destruct (decide (c ∈ BASES_ARR)) as [|Hout]; [done|].
  rewrite elem_of_BASES_ARR in Hout. rewrite !encode_row_BASES.
  rewrite !(decide_False (P := c = _)) by (intros ->; apply Hout; auto 6).
  reflexivity.
Qed.

(** X17: the encoder ignores the case of Basic Latin letters: a string of
    Basic Latin symbols and its ASCII uppercase form have the same
    encoding, which the encoder returns without error. *)
Theorem encoder_ignores_case (up : char -> list char) (s : str) :
  upper_basic_latin up ->
  Forall (fun c => (c < 128)%N) s ->
  exists enc,
    _sequence_to_encoding up s BASES_DICT = Ok enc
    /\ _sequence_to_encoding up (map ascii_upper s) BASES_DICT = Ok enc.
Proof.
  intros Hup Hs.
  assert (str_upper up s = map ascii_upper s) as H1
    by by apply str_upper_basic_latin.
  assert (str_upper up (map ascii_upper s) = map ascii_upper s) as H2.
  { rewrite (str_upper_basic_latin up _ Hup).
    - rewrite map_map. apply map_ext. intros c. apply ascii_upper_idemp.
    - apply Forall_map. eapply Forall_impl; [exact Hs|].
      intros c. apply ascii_upper_lt. }
  exists {| ncols := 4; rows := map (encode_row BASES_DICT) (map ascii_upper s) |}.
  split.
  - rewrite sequence_to_encoding_ok; [|apply BASES_DICT_cols_ok|];
      by rewrite H1, ?length_map.
  - rewrite sequence_to_encoding_ok; [|apply BASES_DICT_cols_ok|];
      by rewrite H2.
Qed.

Lemma encoder_ignores_case_witness :
  exists enc,
    _sequence_to_encoding to_upper_full_latin (py "acgTn") BASES_DICT = Ok enc
    /\ _sequence_to_encoding to_upper_full_latin (py "ACGTN") BASES_DICT
       = Ok enc.
Proof.
  apply (encoder_ignores_case to_upper_full_latin (py "acgTn")).
  - exact to_upper_full_latin_basic.
  - repeat constructor.
Defined.

(** X18: the encoder works symbol by symbol: when uppercasing keeps the
    length of two strings, the encoding of their concatenation has the
    rows of the encoding of the first followed by the rows of the
    encoding of the second. *)
Theorem encoder_of_concatenation (up : char -> list char) (s1 s2 : str) :
  length (str_upper up s1) = length s1 ->
  length (str_upper up s2) = length s2 ->
  exists enc1 enc2,
    _sequence_to_encoding up s1 BASES_DICT = Ok enc1
    /\ _sequence_to_encoding up s2 BASES_DICT = Ok enc2
    /\ _sequence_to_encoding up (s1 ++ s2) BASES_DICT
       = Ok {| ncols := 4; rows := rows enc1 ++ rows enc2 |}.
Proof.
  intros H1 H2.
  assert (str_upper up (s1 ++ s2) = str_upper up s1 ++ str_upper up s2) as Happ
    by apply flat_map_app.
  do 2 eexists. split; [|split].
  - apply sequence_to_encoding_ok; [apply BASES_DICT_cols_ok|done].
  - apply sequence_to_encoding_ok; [apply BASES_DICT_cols_ok|done].
  - rewrite sequence_to_encoding_ok; [|apply BASES_DICT_cols_ok|].
    + simpl. by rewrite Happ, map_app.
    + rewrite Happ, !length_app. lia.
Qed.

Lemma encoder_of_concatenation_witness :
  exists enc1 enc2,
    _sequence_to_encoding to_upper_full_latin (py "ac") BASES_DICT = Ok enc1
    /\ _sequence_to_encoding to_upper_full_latin (py "nT") BASES_DICT = Ok enc2
    /\ _sequence_to_encoding to_upper_full_latin (py "ac" ++ py "nT") BASES_DICT
       = Ok {| ncols := 4; rows := rows enc1 ++ rows enc2 |}.
Proof.
  apply (encoder_of_concatenation to_upper_full_latin (py "ac") (py "nT"));
    reflexivity.
Defined.

(** X19: encoding is stable under decoding. When uppercasing keeps the
    length of a string, decoding its encoding and encoding the result
    again gives the same encoding. *)
Theorem encode_decode_encode (up : char -> list char) (s : str) :
  upper_basic_latin up ->
  length (str_upper up s) = length s ->
  exists enc s',
    _sequence_to_encoding up s BASES_DICT = Ok enc
    /\ _encoding_to_sequence enc BASES_ARR = Ok s'
    /\ _sequence_to_encoding up s' BASES_DICT = Ok enc.
Proof.
  intros Hup Hlen.
  destruct (encode_then_decode up s Hlen) as (enc & Henc & Hdec).
  exists enc, (map collapse_symbol (str_upper up s)).
  split; [done|]. split; [done|].
  rewrite (sequence_to_encoding_ok up s) in Henc
    by (apply BASES_DICT_cols_ok || done).
  injection Henc as <-.
  assert (Forall (fun b => (b < 128)%N /\ ascii_upper b = b)
            (map collapse_symbol (str_upper up s))) as Hplain.
  { apply Forall_map, Forall_forall. intros c _. simpl.
    unfold collapse_symbol. destruct (decide (c ∈ BASES_ARR)) as [Hc|]; [|done].
    apply elem_of_BASES_ARR in Hc.
    by destruct Hc as [-> | [-> | [-> | ->]]]. }
  assert (str_upper up (map collapse_symbol (str_upper up s))
          = map collapse_symbol (str_upper up s)) as Hupper.
  { rewrite (str_upper_basic_latin up _ Hup)
      by (eapply Forall_impl; [exact Hplain|]; by intros b (? & _)).
    clear -Hplain.
    induction Hplain as [|b l (_ & Hb) _ IH]; simpl; [done|by rewrite Hb, IH]. }
  rewrite sequence_to_encoding_ok; [|apply BASES_DICT_cols_ok|by rewrite Hupper].
  rewrite Hupper, map_map. do 2 f_equal.
  apply map_ext. intros c. apply encode_row_collapse.
Qed.

Lemma encode_decode_encode_witness :
  exists enc s',
    _sequence_to_encoding to_upper_full_latin (py "aRn-t") BASES_DICT = Ok enc
    /\ _encoding_to_sequence enc BASES_ARR = Ok s'
    /\ _sequence_to_encoding to_upper_full_latin s' BASES_DICT = Ok enc.
Proof.
  apply (encode_decode_encode to_upper_full_latin (py "aRn-t")).
  - exact to_upper_full_latin_basic.
  - reflexivity.
Defined.
